(** * MaidSafe-Drive launcher: a shallow embedding of
      [src/maidsafe/drive/tools/launcher.cc] and its checked properties.

    The parent-side launcher hands six start-up strings to a child drive
    process through a named shared-memory segment, synchronises on a second
    named region holding two flags, and stops the child again on teardown.
    The embedding keeps the names of the C++ source. *)

From Stdlib Require Import ZArith Lia Bool Ascii String List.
From stdpp Require Import base option gmap strings.

Local Open Scope string_scope.
Local Open Scope Z_scope.

(** ** Byte strings *)

(** A [std::string] is a sequence of arbitrary bytes: [string] over [ascii]. *)
Definition byte_of_ascii (c : ascii) : Z := Z.of_N (N_of_ascii c).
Definition ascii_of_byte (b : Z) : ascii := ascii_of_N (Z.to_N (b mod 256)).

Fixpoint bytes_of_string (s : string) : list Z :=
  match s with
  | EmptyString => []
  | String c r => byte_of_ascii c :: bytes_of_string r
  end.

Fixpoint string_of_bytes (l : list Z) : string :=
  match l with
  | [] => EmptyString
  | b :: r => String (ascii_of_byte b) (string_of_bytes r)
  end.

(** [std::string::substr(0, n)]: the first [n] characters, fewer when the
    string is shorter (position 0 never throws). *)
Definition substr0 (n : nat) (s : string) : string := String.substring 0 n s.

(** ** HexEncode (maidsafe/common/utils) *)

(** Modelled from the spec: [HexEncode] lives in the common library; the
    spec fixes lowercase hexadecimal.  For each input byte the routine
    writes the two characters [kHexAlphabet[b / 16]] and
    [kHexAlphabet[b % 16]]. *)
Definition kHexAlphabet : string := "0123456789abcdef".

Definition hex_char (i : Z) : ascii :=
  match String.get (Z.to_nat i) kHexAlphabet with
  | Some c => c
  | None => "0"%char
  end.

Fixpoint HexEncode (non_hex_input : string) : string :=
  match non_hex_input with
  | EmptyString => EmptyString
  | String c r =>
      String (hex_char (byte_of_ascii c / 16))
        (String (hex_char (byte_of_ascii c mod 16)) (HexEncode r))
  end.

(** ** crypto::Hash<crypto::SHA512> *)

(** Modelled from the spec: the hash routine lives in the common library, the
    spec names it a 512-bit cryptographic hash and the source selects
    SHA-512; the definition below is SHA-512 as standardised (FIPS 180-4),
    on 64-bit words kept in [Z] with the wrap-around written out. *)
Module SHA512.

Definition w64 (x : Z) : Z := x mod 2 ^ 64.
Definition add64 (x y : Z) : Z := w64 (x + y).
Definition rotr (n x : Z) : Z :=
  w64 (Z.lor (Z.shiftr x n) (Z.shiftl x (64 - n))).
Definition shr (n x : Z) : Z := Z.shiftr x n.
Definition not64 (x : Z) : Z := Z.lxor x (2 ^ 64 - 1).

Definition Ch (e f g : Z) : Z := Z.lxor (Z.land e f) (Z.land (not64 e) g).
Definition Maj (a b c : Z) : Z :=
  Z.lxor (Z.lxor (Z.land a b) (Z.land a c)) (Z.land b c).
Definition Sigma0 (x : Z) : Z := Z.lxor (Z.lxor (rotr 28 x) (rotr 34 x)) (rotr 39 x).
Definition Sigma1 (x : Z) : Z := Z.lxor (Z.lxor (rotr 14 x) (rotr 18 x)) (rotr 41 x).
Definition sigma0 (x : Z) : Z := Z.lxor (Z.lxor (rotr 1 x) (rotr 8 x)) (shr 7 x).
Definition sigma1 (x : Z) : Z := Z.lxor (Z.lxor (rotr 19 x) (rotr 61 x)) (shr 6 x).

Definition K : list Z :=
  [ 0x428a2f98d728ae22; 0x7137449123ef65cd; 0xb5c0fbcfec4d3b2f; 0xe9b5dba58189dbbc;
    0x3956c25bf348b538; 0x59f111f1b605d019; 0x923f82a4af194f9b; 0xab1c5ed5da6d8118;
    0xd807aa98a3030242; 0x12835b0145706fbe; 0x243185be4ee4b28c; 0x550c7dc3d5ffb4e2;
    0x72be5d74f27b896f; 0x80deb1fe3b1696b1; 0x9bdc06a725c71235; 0xc19bf174cf692694;
    0xe49b69c19ef14ad2; 0xefbe4786384f25e3; 0x0fc19dc68b8cd5b5; 0x240ca1cc77ac9c65;
    0x2de92c6f592b0275; 0x4a7484aa6ea6e483; 0x5cb0a9dcbd41fbd4; 0x76f988da831153b5;
    0x983e5152ee66dfab; 0xa831c66d2db43210; 0xb00327c898fb213f; 0xbf597fc7beef0ee4;
    0xc6e00bf33da88fc2; 0xd5a79147930aa725; 0x06ca6351e003826f; 0x142929670a0e6e70;
    0x27b70a8546d22ffc; 0x2e1b21385c26c926; 0x4d2c6dfc5ac42aed; 0x53380d139d95b3df;
    0x650a73548baf63de; 0x766a0abb3c77b2a8; 0x81c2c92e47edaee6; 0x92722c851482353b;
    0xa2bfe8a14cf10364; 0xa81a664bbc423001; 0xc24b8b70d0f89791; 0xc76c51a30654be30;
    0xd192e819d6ef5218; 0xd69906245565a910; 0xf40e35855771202a; 0x106aa07032bbd1b8;
    0x19a4c116b8d2d0c8; 0x1e376c085141ab53; 0x2748774cdf8eeb99; 0x34b0bcb5e19b48a8;
    0x391c0cb3c5c95a63; 0x4ed8aa4ae3418acb; 0x5b9cca4f7763e373; 0x682e6ff3d6b2b8a3;
    0x748f82ee5defb2fc; 0x78a5636f43172f60; 0x84c87814a1f0ab72; 0x8cc702081a6439ec;
    0x90befffa23631e28; 0xa4506cebde82bde9; 0xbef9a3f7b2c67915; 0xc67178f2e372532b;
    0xca273eceea26619c; 0xd186b8c721c0c207; 0xeada7dd6cde0eb1e; 0xf57d4f7fee6ed178;
    0x06f067aa72176fba; 0x0a637dc5a2c898a6; 0x113f9804bef90dae; 0x1b710b35131c471b;
    0x28db77f523047d84; 0x32caab7b40c72493; 0x3c9ebe0a15c9bebc; 0x431d67c49c100d4c;
    0x4cc5d4becb3e42b6; 0x597f299cfc657e2a; 0x5fcb6fab3ad6faec; 0x6c44198c4a475817 ]%Z.

(** The eight working words. *)
Record state := State { ha : Z; hb : Z; hc : Z; hd : Z; he : Z; hf : Z; hg : Z; hh : Z }.

Definition H0 : state :=
  State 0x6a09e667f3bcc908 0xbb67ae8584caa73b 0x3c6ef372fe94f82b 0xa54ff53a5f1d36f1
        0x510e527fade682d1 0x9b05688c2b3e6c1f 0x1f83d9abfb41bd6b 0x5be0cd19137e2179.

(** Padding: a one bit, zero bytes up to 112 modulo 128, and the bit length
    as a 128-bit big-endian number. *)
Fixpoint be_bytes (n : nat) (x : Z) : list Z :=
  match n with
  | O => []
  | S n' => (Z.shiftr x (8 * Z.of_nat n')) mod 256 :: be_bytes n' x
  end.

Definition pad (msg : list Z) : list Z :=
  let len := Z.of_nat (List.length msg) in
  let zeros := Z.to_nat ((111 - len) mod 128) in
  msg ++ 0x80 :: List.repeat 0 zeros ++ be_bytes 16 (8 * len).

(** Big-endian 64-bit words, eight bytes at a time. *)
Fixpoint be_word (acc : Z) (bs : list Z) : Z :=
  match bs with
  | [] => acc
  | b :: r => be_word (acc * 256 + b) r
  end.

Fixpoint words (n : nat) (bs : list Z) : list Z :=
  match n with
  | O => []
  | S n' => be_word 0 (firstn 8 bs) :: words n' (skipn 8 bs)
  end.

(** Message schedule, newest word first. *)
Fixpoint schedule (n : nat) (w : list Z) : list Z :=
  match n with
  | O => w
  | S n' =>
      let x :=
        add64 (add64 (sigma1 (nth 1 w 0)) (nth 6 w 0))
              (add64 (sigma0 (nth 14 w 0)) (nth 15 w 0)) in
      schedule n' (x :: w)
  end.

Definition round (s : state) (kw : Z * Z) : state :=
  let t1 := add64 (add64 (add64 (hh s) (Sigma1 (he s))) (Ch (he s) (hf s) (hg s)))
                  (add64 (fst kw) (snd kw)) in
  let t2 := add64 (Sigma0 (ha s)) (Maj (ha s) (hb s) (hc s)) in
  State (add64 t1 t2) (ha s) (hb s) (hc s) (add64 (hd s) t1) (he s) (hf s) (hg s).

Definition compress (h : state) (block : list Z) : state :=
  let w := List.rev (schedule 64 (List.rev (words 16 block))) in
  let s := fold_left round (combine K w) h in
  State (add64 (ha h) (ha s)) (add64 (hb h) (hb s)) (add64 (hc h) (hc s))
        (add64 (hd h) (hd s)) (add64 (he h) (he s)) (add64 (hf h) (hf s))
        (add64 (hg h) (hg s)) (add64 (hh h) (hh s)).

Fixpoint blocks (n : nat) (h : state) (bs : list Z) : state :=
  match n with
  | O => h
  | S n' => blocks n' (compress h (firstn 128 bs)) (skipn 128 bs)
  end.

Definition digest_bytes (s : state) : list Z :=
  be_bytes 8 (ha s) ++ be_bytes 8 (hb s) ++ be_bytes 8 (hc s) ++ be_bytes 8 (hd s) ++
  be_bytes 8 (he s) ++ be_bytes 8 (hf s) ++ be_bytes 8 (hg s) ++ be_bytes 8 (hh s).

Definition hash_bytes (msg : list Z) : list Z :=
  let p := pad msg in
  digest_bytes (blocks (List.length p / 128) H0 p).

Definition Hash (s : string) : string :=
  string_of_bytes (hash_bytes (bytes_of_string s)).

End SHA512.

(** ** GetMountStatusSharedMemoryName *)

Definition GetMountStatusSharedMemoryName (initial_shared_memory_name : string) : string :=
  substr0 32 (HexEncode (SHA512.Hash initial_shared_memory_name)).

(** ** Errors and outcomes *)

(** The error codes thrown by the launcher, and the kinds the spec gives the
    shared-memory and string routines of the libraries it calls. *)
Inductive error : Type :=
  | CommonErrors_invalid_parameter
  | CommonErrors_uninitialised
  | CommonErrors_invalid_string_size
  | DriveErrors_failed_to_mount
  | DriveErrors_no_drive_letter_available
  | ResourceUnavailable
  | NotFound
  | std_invalid_argument
  | std_out_of_range.

(** A call returns, throws, or (for an access through a null or out-of-range
    pointer, which C++ leaves undefined) faults. *)
Inductive outcome (A : Type) : Type :=
  | Ret (a : A)
  | Throw (e : error)
  | Fault.
Arguments Ret {A} a.
Arguments Throw {A} e.
Arguments Fault {A}.

(** Computations over a state [S]; [None] means the computation has not
    finished with the fuel it was given (a blocking call still waiting). *)
Definition M (S A : Type) : Type := S -> option (outcome A * S).

Definition ret {S A} (a : A) : M S A := fun s => Some (Ret a, s).
Definition throw {S A} (e : error) : M S A := fun s => Some (Throw e, s).
Definition fault {S A} : M S A := fun s => Some (Fault, s).
Definition bind {S A B} (m : M S A) (f : A -> M S B) : M S B :=
  fun s =>
    match m s with
    | None => None
    | Some (Ret a, s') => f a s'
    | Some (Throw e, s') => Some (Throw e, s')
    | Some (Fault, s') => Some (Fault, s')
    end.
Definition get {S} : M S S := fun s => Some (Ret s, s).
Definition put {S} (s : S) : M S unit := fun _ => Some (Ret tt, s).
Definition modify {S} (f : S -> S) : M S unit := fun s => Some (Ret tt, f s).

(** [try { m } catch (const std::exception&) { log }]: an exception is
    swallowed, the effects made before it stay. *)
Definition try_catch_log {S} (m : M S unit) : M S unit :=
  fun s =>
    match m s with
    | Some (Throw _, s') => Some (Ret tt, s')
    | r => r
    end.

(** A pure fallible value used inside a computation. *)
Definition lift {S A} (o : outcome A) : M S A := fun s => Some (o, s).

Declare Scope launcher_scope.
Delimit Scope launcher_scope with launcher.
Notation "x <- m ;; k" := (bind m (fun x => k))
  (at level 100, m at next level, right associativity) : launcher_scope.
Notation "m ;;; k" := (bind m (fun _ => k))
  (at level 100, right associativity) : launcher_scope.
Local Open Scope launcher_scope.

(** ** std::stoi *)

Definition isspace (c : ascii) : bool :=
  let n := byte_of_ascii c in (n =? 32) || ((9 <=? n) && (n <=? 13)).

Definition digit_value (c : ascii) : option Z :=
  let n := byte_of_ascii c in
  if (48 <=? n) && (n <=? 57) then Some (n - 48) else None.

Fixpoint skip_spaces (s : string) : string :=
  match s with
  | String c r => if isspace c then skip_spaces r else s
  | EmptyString => s
  end.

(** Longest run of decimal digits, with the number of digits consumed. *)
Fixpoint parse_digits (acc : Z) (seen : nat) (s : string) : Z * nat :=
  match s with
  | String c r =>
      match digit_value c with
      | Some d => parse_digits (acc * 10 + d) (S seen) r
      | None => (acc, seen)
      end
  | EmptyString => (acc, seen)
  end.

Definition INT_MIN : Z := - 2 ^ 31.
Definition INT_MAX : Z := 2 ^ 31 - 1.

(** [std::stoi(str)]: leading white space, an optional sign, decimal digits;
    [std::invalid_argument] when there is no digit, [std::out_of_range] when
    the value does not fit an [int]. *)
Definition stoi (str : string) : outcome Z :=
  let s := skip_spaces str in
  let '(negative, body) :=
    match s with
    | String "-"%char r => (true, r)
    | String "+"%char r => (false, r)
    | _ => (false, s)
    end in
  match parse_digits 0 0 body with
  | (_, O) => Throw std_invalid_argument
  | (v, _) =>
      let v := if negative then - v else v in
      if (INT_MIN <=? v) && (v <=? INT_MAX) then Ret v else Throw std_out_of_range
  end.

(** ** Paths, identities and options (launcher.h) *)

(** [boost::filesystem::path], kept as the string [.string()] returns. *)
Record fs_path : Type := Path { path_string : string }.

(** Modelled from the spec: [maidsafe::Identity] is declared in the common
    library, outside this source tree; launcher.cc only calls its
    constructor from a string (lines 106-107) and its [string()] (lines
    146-147), and the spec passes the two ids through as opaque tokens, 64
    bytes long in its round trip.  An identity is either default-constructed
    or holds a string.  The two checks below are the library's and are not
    described by the spec: the constructor from a string accepts exactly 64
    bytes, and [string()] refuses a default-constructed identity.  The
    properties that meet them name the ids they hold or the outcome of the
    constructor in their hypotheses; none is about the checks themselves. *)
Inductive Identity : Type :=
  | Identity_uninitialised
  | Identity_holding (s : string).

Definition Identity_ctor (s : string) : outcome Identity :=
  if (String.length s =? 64)%nat then Ret (Identity_holding s)
  else Throw CommonErrors_invalid_string_size.

Definition Identity_string (i : Identity) : outcome string :=
  match i with
  | Identity_holding s => Ret s
  | Identity_uninitialised => Throw CommonErrors_uninitialised
  end.

(** Modelled from the spec: [enum class DriveType] is declared in launcher.h;
    the four variants in the order the spec lists them, as the integer the
    [switch] inspects (so that values outside the enumerators exist). *)
Definition DriveType : Type := Z.
Definition kLocal : DriveType := 0.
Definition kLocalConsole : DriveType := 1.
Definition kNetwork : DriveType := 2.
Definition kNetworkConsole : DriveType := 3.

Record Options : Type := mkOptions {
  mount_path : fs_path;
  storage_path : fs_path;
  unique_id : Identity;
  root_parent_id : Identity;
  drive_name : fs_path;
  create_store : bool;
  drive_type : DriveType;
  drive_logging_args : string;
  mount_status_shared_object_name : string;
}.

(** [enum SharedMemoryArgIndex] *)
Definition kMountPathArg : nat := 0.
Definition kStoragePathArg : nat := 1.
Definition kUniqueIdArg : nat := 2.
Definition kRootParentIdArg : nat := 3.
Definition kDriveNameArg : nat := 4.
Definition kCreateStoreArg : nat := 5.
Definition kMaxArgIndex : nat := 6.

(** ** GetNextAvailableDrivePath (Windows only) *)

Definition uint32 (x : Z) : Z := x mod 2 ^ 32.

(** The [while (drive_letters & mask)] loop: [mask <<= 1] on a 32-bit
    unsigned, [++path[0]] on the letter.  [None]: the loop is still running
    when the fuel is spent. *)
Fixpoint scan_drive_letters (fuel : nat) (drive_letters mask letter : Z) : option Z :=
  if Z.land drive_letters mask =? 0 then Some letter
  else
    match fuel with
    | O => None
    | S fuel' =>
        scan_drive_letters fuel' drive_letters (uint32 (Z.shiftl mask 1)) (letter + 1)
    end.

(** [drive_letters] is what [GetLogicalDrives()] returned: bit 0 is A:. *)
Definition GetNextAvailableDrivePath (fuel : nat) (drive_letters : Z)
  : option (outcome fs_path) :=
  match scan_drive_letters fuel drive_letters 0x4 (byte_of_ascii "C") with
  | None => None
  | Some letter =>
      if letter >? byte_of_ascii "Z"
      then Some (Throw DriveErrors_no_drive_letter_available)
      else Some (Ret (Path (String (ascii_of_byte letter) ":")))
  end.

(** ** GetDriveExecutablePath *)

Section Executables.

(** [process::GetOtherExecutablePath] (common library): the path of a
    sibling executable of the running program, given its name. *)
Variable GetOtherExecutablePath : string -> fs_path.

Definition GetDriveExecutablePath (drive_type : DriveType) : outcome fs_path :=
  if drive_type =? kLocal then Ret (GetOtherExecutablePath "local_drive")
  else if drive_type =? kLocalConsole then Ret (GetOtherExecutablePath "local_drive_console")
  else if drive_type =? kNetwork then Ret (GetOtherExecutablePath "network_drive")
  else if drive_type =? kNetworkConsole then
    Ret (GetOtherExecutablePath "network_drive_console")
  else Throw CommonErrors_invalid_parameter.

End Executables.

(** ** The world outside the launcher *)

(** [struct MountStatus]: the two flags.  The mutex and the condition
    variable next to them hold no data; who holds the mutex follows from
    where the launcher stands in its own code, and is passed to the child's
    steps as [mutex_free] below. *)
Record MountStatus : Type := mkMountStatus { mounted : bool; unmount : bool }.

(** What a shared-memory name denotes: a segment of strings written by
    [ipc::CreateSharedMemory], or a raw region whose bytes live at an
    address of the shared memory. *)
Inductive ShmObject : Type :=
  | Segment (items : list string)
  | Region (addr : nat).

(** Modelled from the spec: the child drive process is an external
    collaborator; what it may do is the contract of the spec's section 6,
    one step per second of the launcher's waiting.  The steps that touch
    shared memory are the helpers of launcher.cc themselves. *)
Inductive ChildAction : Type :=
  | Sleep
  | CallReadAndRemoveInitialSharedMemory
  | SignalMounted          (* DoNotifyMountStatus(name, true) up to notify_one *)
  | WaitUnmountRequest     (* the rest of that call: its condition.wait *)
  | CallNotifyUnmounted    (* DoNotifyMountStatus(name, false) *)
  | ExitProcess (code : Z).

Inductive ProcState : Type :=
  | NotStarted             (* the operating system refused to start it *)
  | Running
  | Exited (code : Z)
  | Terminated.            (* killed by bp::terminate *)

Record Process : Type := mkProcess {
  proc_args : list string;
  proc_todo : list ChildAction;
  proc_state : ProcState;
}.

Record World : Type := mkWorld {
  names : gmap string ShmObject;          (* registered shared-memory names *)
  memory : gmap nat MountStatus;          (* mapped regions, by address *)
  exes : gmap string (list ChildAction);  (* startable executables and what they do *)
  child : option Process;                 (* the drive process, once spawned *)
}.

Definition set_names (f : gmap string ShmObject -> gmap string ShmObject) (w : World) : World :=
  mkWorld (f (names w)) (memory w) (exes w) (child w).
Definition set_memory (f : gmap nat MountStatus -> gmap nat MountStatus) (w : World) : World :=
  mkWorld (names w) (f (memory w)) (exes w) (child w).
Definition set_child (c : option Process) (w : World) : World :=
  mkWorld (names w) (memory w) (exes w) c.

(** *** ipc::CreateSharedMemory, ReadSharedMemory, RemoveSharedMemory *)

(** Modelled from the spec: the three routines of the common library's
    ipc.h, by the contract of the spec's section 4.1: creation fails when
    the name is in use, reading fails when no segment has the name, removal
    never raises. *)
Definition ipc_CreateSharedMemory (name : string) (items : list string) : M World unit :=
  fun w =>
    match names w !! name with
    | Some _ => Some (Throw ResourceUnavailable, w)
    | None => Some (Ret tt, set_names (insert name (Segment items)) w)
    end.

(** [ipc::ReadSharedMemory(name, number)]: the first [number] strings of
    the segment. *)
Definition ipc_ReadSharedMemory (name : string) (number : nat) : M World (list string) :=
  fun w =>
    match names w !! name with
    | Some (Segment items) => Some (Ret (take number items), w)
    | _ => Some (Throw NotFound, w)
    end.

(** [ipc::RemoveSharedMemory(name)]: the name goes, if it was there. *)
Definition ipc_RemoveSharedMemory (name : string) : M World unit :=
  modify (set_names (delete name)).

(** *** boost::interprocess shared memory objects *)

(** [shared_memory_object(create_only, name)], [truncate] and
    [mapped_region]: a fresh zero-filled region under a name that must be
    free (the spec's section 4.2 calls the failure ResourceUnavailable);
    the result is the address of the mapping. *)
Definition bi_create_only (name : string) : M World nat :=
  fun w =>
    match names w !! name with
    | Some _ => Some (Throw ResourceUnavailable, w)
    | None =>
        let a := fresh (dom (memory w)) in
        Some (Ret a, set_memory (insert a (mkMountStatus false false))
                       (set_names (insert name (Region a)) w))
    end.

(** [shared_memory_object(open_only, name)] and [mapped_region]: the
    address of the region registered under the name (NotFound without one);
    reading a [MountStatus] out of a segment of strings is undefined. *)
Definition bi_open_only (name : string) : M World nat :=
  fun w =>
    match names w !! name with
    | Some (Region a) => Some (Ret a, w)
    | Some (Segment _) => Some (Fault, w)
    | None => Some (Throw NotFound, w)
    end.

(** [shared_memory_object::remove(name)]: the name goes; a mapping made
    earlier stays valid. *)
Definition bi_remove (name : string) : M World unit :=
  modify (set_names (delete name)).

(** Access to a [MountStatus] through a pointer. *)
Definition load (a : nat) : M World MountStatus :=
  fun w =>
    match memory w !! a with
    | Some ms => Some (Ret ms, w)
    | None => Some (Fault, w)
    end.

Definition store (a : nat) (ms : MountStatus) : M World unit :=
  modify (set_memory (insert a ms)).

Definition mounted_at (a : nat) (w : World) : bool :=
  match memory w !! a with Some ms => mounted ms | None => false end.

Definition unmount_at (a : nat) (w : World) : bool :=
  match memory w !! a with Some ms => unmount ms | None => false end.

(** ** The collaborator-side helpers of launcher.cc *)

Definition set_mount_path (v : fs_path) (o : Options) : Options :=
  mkOptions v (storage_path o) (unique_id o) (root_parent_id o) (drive_name o)
    (create_store o) (drive_type o) (drive_logging_args o) (mount_status_shared_object_name o).
Definition set_storage_path (v : fs_path) (o : Options) : Options :=
  mkOptions (mount_path o) v (unique_id o) (root_parent_id o) (drive_name o)
    (create_store o) (drive_type o) (drive_logging_args o) (mount_status_shared_object_name o).
Definition set_unique_id (v : Identity) (o : Options) : Options :=
  mkOptions (mount_path o) (storage_path o) v (root_parent_id o) (drive_name o)
    (create_store o) (drive_type o) (drive_logging_args o) (mount_status_shared_object_name o).
Definition set_root_parent_id (v : Identity) (o : Options) : Options :=
  mkOptions (mount_path o) (storage_path o) (unique_id o) v (drive_name o)
    (create_store o) (drive_type o) (drive_logging_args o) (mount_status_shared_object_name o).
Definition set_drive_name (v : fs_path) (o : Options) : Options :=
  mkOptions (mount_path o) (storage_path o) (unique_id o) (root_parent_id o) v
    (create_store o) (drive_type o) (drive_logging_args o) (mount_status_shared_object_name o).
Definition set_create_store (v : bool) (o : Options) : Options :=
  mkOptions (mount_path o) (storage_path o) (unique_id o) (root_parent_id o) (drive_name o)
    v (drive_type o) (drive_logging_args o) (mount_status_shared_object_name o).
Definition set_mount_status_shared_object_name (v : string) (o : Options) : Options :=
  mkOptions (mount_path o) (storage_path o) (unique_id o) (root_parent_id o) (drive_name o)
    (create_store o) (drive_type o) (drive_logging_args o) v.

(** [v[i]] on a [std::vector]: no bounds check, undefined out of range. *)
Definition at_index {S} (v : list string) (i : nat) : M S string :=
  match v !! i with
  | Some x => ret x
  | None => fault
  end.

(** [ReadAndRemoveInitialSharedMemory(name, options)] as a caller that
    goes on only after a normal return sees it: the result is [options] as
    the call leaves it.  What a call that throws has already written into
    the caller's [options] is given by
    [ReadAndRemoveInitialSharedMemory_ref] below. *)
Definition ReadAndRemoveInitialSharedMemory
    (initial_shared_memory_name : string) (options : Options) : M World Options :=
  shared_memory_args <- ipc_ReadSharedMemory initial_shared_memory_name kMaxArgIndex ;;
  a0 <- at_index shared_memory_args kMountPathArg ;;
  let options := set_mount_path (Path a0) options in
  a1 <- at_index shared_memory_args kStoragePathArg ;;
  let options := set_storage_path (Path a1) options in
  a2 <- at_index shared_memory_args kUniqueIdArg ;;
  i2 <- lift (Identity_ctor a2) ;;
  let options := set_unique_id i2 options in
  a3 <- at_index shared_memory_args kRootParentIdArg ;;
  i3 <- lift (Identity_ctor a3) ;;
  let options := set_root_parent_id i3 options in
  a4 <- at_index shared_memory_args kDriveNameArg ;;
  let options := set_drive_name (Path a4) options in
  a5 <- at_index shared_memory_args kCreateStoreArg ;;
  n5 <- lift (stoi a5) ;;
  let options := set_create_store (negb (n5 =? 0)) options in
  let options :=
    set_mount_status_shared_object_name
      (GetMountStatusSharedMemoryName initial_shared_memory_name) options in
  ipc_RemoveSharedMemory initial_shared_memory_name ;;;
  ret options.

(** The same function with [Options& options] kept by reference: the state
    is the caller's [options] together with the world, every assignment
    (lines 104-111) is made in place as soon as its right-hand side has been
    evaluated, and an exception leaves what was assigned before it. *)
Definition in_world_of {A} (m : M World A) : M (Options * World) A :=
  fun s =>
    match m (snd s) with
    | Some (r, w') => Some (r, (fst s, w'))
    | None => None
    end.

Definition assign (set : Options -> Options) : M (Options * World) unit :=
  modify (fun s => (set (fst s), snd s)).

Definition ReadAndRemoveInitialSharedMemory_ref
    (initial_shared_memory_name : string) : M (Options * World) unit :=
  shared_memory_args <-
    in_world_of (ipc_ReadSharedMemory initial_shared_memory_name kMaxArgIndex) ;;
  a0 <- at_index shared_memory_args kMountPathArg ;;
  assign (set_mount_path (Path a0)) ;;;
  a1 <- at_index shared_memory_args kStoragePathArg ;;
  assign (set_storage_path (Path a1)) ;;;
  a2 <- at_index shared_memory_args kUniqueIdArg ;;
  i2 <- lift (Identity_ctor a2) ;;
  assign (set_unique_id i2) ;;;
  a3 <- at_index shared_memory_args kRootParentIdArg ;;
  i3 <- lift (Identity_ctor a3) ;;
  assign (set_root_parent_id i3) ;;;
  a4 <- at_index shared_memory_args kDriveNameArg ;;
  assign (set_drive_name (Path a4)) ;;;
  a5 <- at_index shared_memory_args kCreateStoreArg ;;
  n5 <- lift (stoi a5) ;;
  assign (set_create_store (negb (n5 =? 0))) ;;;
  assign (set_mount_status_shared_object_name
            (GetMountStatusSharedMemoryName initial_shared_memory_name)) ;;;
  in_world_of (ipc_RemoveSharedMemory initial_shared_memory_name).

(** [bi::scoped_lock<bi::interprocess_mutex> lock(mount_status->mutex)]: the
    caller goes on once it holds the mutex of the region.  Two processes
    share it: the launcher takes it on entry to WaitForDriveToMount (line
    199) and to StopDriveProcess (line 222) and holds it to the end of the
    function, except inside [timed_wait], which gives it up while it waits;
    the child takes it in [DoNotifyMountStatus] (line 88).  [mutex_free]
    tells whether the other process has left the mutex free; while it has
    not, the caller stays blocked. *)
Definition scoped_lock (mutex_free : bool) : M World unit :=
  fun w => if mutex_free then Some (Ret tt, w) else None.

(** [DoNotifyMountStatus] up to and including [notify_one] (lines 84-90):
    open and map the region, take its mutex, set [mounted]; the address is
    kept for the wait that may follow. *)
Definition DoNotifyMountStatus_signal (mutex_free : bool)
    (mount_status_shared_object_name : string) (mount_and_wait : bool) : M World nat :=
  a <- bi_open_only mount_status_shared_object_name ;;
  scoped_lock mutex_free ;;;
  ms <- load a ;;
  store a (mkMountStatus mount_and_wait (unmount ms)) ;;;
  ret a.

(** Where a call of [DoNotifyMountStatus] stands once it has done all it can
    without waiting for the other process: it has returned, or it has given
    up the mutex inside [condition.wait] on the region at address [a], with
    everything before the wait already stored. *)
Inductive call_state : Type :=
  | Returned
  | Waiting (a : nat).

(** [DoNotifyMountStatus] (lines 83-93).  [condition.wait(lock, pred)] is
    [while (!pred()) wait(lock);]: the predicate is first read with the
    mutex still held, and when [unmount] is already set the call returns at
    once. *)
Definition DoNotifyMountStatus (mutex_free : bool)
    (mount_status_shared_object_name : string) (mount_and_wait : bool)
  : M World call_state :=
  a <- DoNotifyMountStatus_signal mutex_free mount_status_shared_object_name mount_and_wait ;;
  if mount_and_wait then
    w <- get ;;
    ret (if unmount_at a w then Returned else Waiting a)
  else ret Returned.

(** The rest of a call left [Waiting a]: [wait(lock)] returns once the caller
    has been woken and holds the mutex again, and the loop ends once
    [unmount] is set; until both hold the caller stays blocked. *)
Definition wait_unmount (mutex_free : bool) (a : nat) : M World unit :=
  fun w => if mutex_free && unmount_at a w then Some (Ret tt, w) else None.

Definition NotifyMountedAndWaitForUnmountRequest (mutex_free : bool) (name : string)
  : M World call_state :=
  DoNotifyMountStatus mutex_free name true.

Definition NotifyUnmounted (mutex_free : bool) (name : string) : M World call_state :=
  DoNotifyMountStatus mutex_free name false.

(** ** One second of the child process *)

(** The name the child was started with: the text after
    ["--shared_memory "] in its second argument. *)
Definition shared_memory_option : string := "--shared_memory ".

Definition child_shared_memory_name (p : Process) : string :=
  match proc_args p with
  | _ :: a :: _ =>
      String.substring (String.length shared_memory_option)
        (String.length a - String.length shared_memory_option) a
  | _ => ""
  end.

Definition child_mount_status_name (p : Process) : string :=
  GetMountStatusSharedMemoryName (child_shared_memory_name p).

Definition default_Options : Options :=
  mkOptions (Path "") (Path "") Identity_uninitialised Identity_uninitialised (Path "")
    false kLocal "" "".

(** An exception that leaves the child's [main] ends the process. *)
Definition child_after {A} (p : Process) (r : option (outcome A * World)) (blocked : World)
  : World :=
  match r with
  | Some (Ret _, w) => set_child (Some p) w
  | Some (_, w) => set_child (Some (mkProcess (proc_args p) [] (Exited 1))) w
  | None => blocked
  end.

(** One second of the child; [mutex_free] tells whether the launcher leaves
    the mutex of the status region free during that second.  A step of the
    child that cannot go on leaves the world as it is. *)
Definition child_step (mutex_free : bool) (w : World) : World :=
  match child w with
  | Some (mkProcess args (a :: rest) Running) =>
      let p := mkProcess args (a :: rest) Running in
      let p' := mkProcess args rest Running in
      match a with
      | Sleep => set_child (Some p') w
      | CallReadAndRemoveInitialSharedMemory =>
          child_after p'
            (ReadAndRemoveInitialSharedMemory (child_shared_memory_name p) default_Options w) w
      | SignalMounted =>
          child_after p'
            (DoNotifyMountStatus_signal mutex_free (child_mount_status_name p) true w) w
      | WaitUnmountRequest =>
          child_after p'
            ((a <- bi_open_only (child_mount_status_name p) ;; wait_unmount mutex_free a) w) w
      | CallNotifyUnmounted =>
          child_after p' (NotifyUnmounted mutex_free (child_mount_status_name p) w) w
      | ExitProcess code => set_child (Some (mkProcess args rest (Exited code))) w
      end
  | _ => w
  end.

(** A second during which the launcher does not hold the mutex: it has not
    taken it yet, or it has given it up inside [timed_wait]. *)
Definition tick (w : World) : World := child_step true w.

(** *** boost::process *)

(** [bp::execute(run_exe, set_cmd_line, set_on_error)]: the result tells
    whether the error code was set. *)
Definition bp_execute (exe : string) (cmd_line : list string) : M World bool :=
  fun w =>
    match exes w !! exe with
    | Some script => Some (Ret false, set_child (Some (mkProcess cmd_line script Running)) w)
    | None => Some (Ret true, set_child (Some (mkProcess cmd_line [] NotStarted)) w)
    end.

(** [bp::terminate(child, error_code)]: kills a running process; on any
    other the error code is set and nothing happens. *)
Definition bp_terminate : M World bool :=
  fun w =>
    match child w with
    | Some (mkProcess args todo Running) =>
        Some (Ret false, set_child (Some (mkProcess args todo Terminated)) w)
    | _ => Some (Ret true, w)
    end.

(** [bp::wait_for_exit(child, error_code)]: blocks, with no bound, until the
    process has ended; a second of the child passes per unit of fuel.  The
    result is the exit code, or [None] with the error code set.
    StopDriveProcess, the one caller (line 234), still holds the
    [scoped_lock] of line 222 on [mount_status_->mutex], so the child runs
    these seconds with the mutex taken. *)
Fixpoint bp_wait_for_exit (fuel : nat) (w : World) : option (outcome (option Z) * World) :=
  match child w with
  | Some (mkProcess _ _ (Exited code)) => Some (Ret (Some code), w)
  | Some (mkProcess _ _ Terminated) => Some (Ret (Some 9), w)
  | Some (mkProcess _ _ Running) =>
      match fuel with
      | O => None
      | S fuel' => bp_wait_for_exit fuel' (child_step false w)
      end
  | Some (mkProcess _ _ NotStarted) | None => Some (Ret None, w)
  end.

(** *** interprocess_condition::timed_wait with a predicate *)

(** [while (!pred()) if (!do_timed_wait(deadline)) return pred(); return true;]
    with the deadline [seconds] away; every wait that returns before the
    deadline lets one second of the child pass, with the mutex given up for
    the time of the wait and held again when the predicate is read. *)
Fixpoint timed_wait (seconds : nat) (pred : World -> bool) (w : World) : bool * World :=
  if pred w then (true, w)
  else
    match seconds with
    | O => (false, w)
    | S seconds' => timed_wait seconds' pred (tick w)
    end.

Definition kTimeoutSeconds : nat := 10.

(** ** class Launcher *)

(** The handle a [std::unique_ptr<bp::child>] owns. *)
Inductive bp_child : Type := ChildHandle.

(** The data members that carry state: the shared-memory object and the
    mapped region are represented by the address [mount_status_] points to. *)
Record Launcher : Type := mkLauncher {
  initial_shared_memory_name_ : string;
  kMountPath_ : fs_path;
  mount_status_ : option nat;           (* nullptr, or the mapped MountStatus *)
  drive_process_ : option bp_child;     (* null, or the spawned child *)
}.

Definition set_mount_status_ (v : option nat) (l : Launcher) : Launcher :=
  mkLauncher (initial_shared_memory_name_ l) (kMountPath_ l) v (drive_process_ l).
Definition set_drive_process_ (v : option bp_child) (l : Launcher) : Launcher :=
  mkLauncher (initial_shared_memory_name_ l) (kMountPath_ l) (mount_status_ l) v.

(** A member function runs on the object and the world. *)
Definition Method (A : Type) : Type := M (Launcher * World) A.

Definition this : Method Launcher := fun s => Some (Ret (fst s), s).
Definition update_this (f : Launcher -> Launcher) : Method unit :=
  modify (fun s => (f (fst s), snd s)).
Definition in_world {A} (m : M World A) : Method A :=
  fun s =>
    match m (snd s) with
    | None => None
    | Some (r, w) => Some (r, (fst s, w))
    end.

Section Launcher.

Variable GetOtherExecutablePath : string -> fs_path.
(** Whether the build defines [MAIDSAFE_WIN32]. *)
Variable MAIDSAFE_WIN32 : bool.

(** [mount_path / fs::path("/").make_preferred()] on Windows, where the
    preferred separator is the backslash (character 92); the path itself
    elsewhere. *)
Definition AdjustMountPath (mount_path : fs_path) : fs_path :=
  if MAIDSAFE_WIN32
  then Path (path_string mount_path +:+ String (ascii_of_byte 92) EmptyString)
  else mount_path.

Definition CreateInitialSharedMemory (options : Options) : Method unit :=
  let shared_memory_args : list string := replicate kMaxArgIndex "" in
  let shared_memory_args :=
    <[kMountPathArg := path_string (mount_path options)]> shared_memory_args in
  let shared_memory_args :=
    <[kStoragePathArg := path_string (storage_path options)]> shared_memory_args in
  uid <- lift (Identity_string (unique_id options)) ;;
  let shared_memory_args := <[kUniqueIdArg := uid]> shared_memory_args in
  rid <- lift (Identity_string (root_parent_id options)) ;;
  let shared_memory_args := <[kRootParentIdArg := rid]> shared_memory_args in
  let shared_memory_args :=
    <[kDriveNameArg := path_string (drive_name options)]> shared_memory_args in
  let shared_memory_args :=
    <[kCreateStoreArg := if create_store options then "1" else "0"]> shared_memory_args in
  self <- this ;;
  in_world (ipc_CreateSharedMemory (initial_shared_memory_name_ self) shared_memory_args).

Definition CreateMountStatusSharedMemory : Method unit :=
  self <- this ;;
  a <- in_world
         (bi_create_only (GetMountStatusSharedMemoryName (initial_shared_memory_name_ self))) ;;
  in_world (store a (mkMountStatus false false)) ;;;
  update_this (set_mount_status_ (Some a)).

(** Modelled from the spec: [process::ConstructCommandLine] (common
    library) joins the arguments; the child sees them one by one. *)
Definition ConstructCommandLine (process_args : list string) : list string := process_args.

Definition StartDriveProcess (options : Options) : Method unit :=
  self <- this ;;
  exe <- lift (GetDriveExecutablePath GetOtherExecutablePath (drive_type options)) ;;
  let kExePath := path_string exe in
  let process_args :=
    [kExePath; shared_memory_option +:+ initial_shared_memory_name_ self] in
  let process_args :=
    if String.eqb (drive_logging_args options) "" then process_args
    else (process_args ++ [drive_logging_args options])%list in
  let kCommandLine := ConstructCommandLine process_args in
  error_code <- in_world (bp_execute kExePath kCommandLine) ;;
  update_this (set_drive_process_ (Some ChildHandle)) ;;;
  if error_code : bool then throw CommonErrors_uninitialised else ret tt.

(** [bi::scoped_lock<bi::interprocess_mutex> lock(mount_status_->mutex)] on
    the launcher's side (lines 199 and 222): a null pointer or an unmapped
    address faults; the mutex itself is free when the launcher asks for it,
    since the child holds it within one of its steps only and gives it up
    when it returns or waits. *)
Definition deref_mount_status : Method nat :=
  self <- this ;;
  match mount_status_ self with
  | None => fault
  | Some a => in_world (load a) ;;; ret a
  end.

(** [Launcher::WaitForDriveToMount]: the mutex is given up inside
    [timed_wait] and held again when the call returns or throws. *)
Definition WaitForDriveToMount : Method unit :=
  a <- deref_mount_status ;;
  ok <- in_world (fun w =>
          let (ok, w') := timed_wait kTimeoutSeconds (mounted_at a) w in Some (Ret ok, w')) ;;
  if ok : bool then ret tt else throw DriveErrors_failed_to_mount.

(** [Launcher::StopDriveProcess]: the lock of line 222 lasts to the end of
    the function; it is given up inside [timed_wait] only, so that the kill
    and the wait for the exit both run with the mutex held. *)
Definition StopDriveProcess (fuel : nat) : Method unit :=
  self <- this ;;
  match drive_process_ self with
  | None => ret tt
  | Some _ =>
      a <- deref_mount_status ;;
      ms <- in_world (load a) ;;
      in_world (store a (mkMountStatus (mounted ms) true)) ;;;
      ok <- in_world (fun w =>
              let (ok, w') :=
                timed_wait kTimeoutSeconds (fun w => negb (mounted_at a w)) w in
              Some (Ret ok, w')) ;;
      if ok : bool then
        exit_code <- in_world (bp_wait_for_exit fuel) ;;
        update_this (set_drive_process_ None)
      else
        in_world bp_terminate ;;;
        update_this (set_drive_process_ None)
  end.

(** [Launcher::~Launcher] *)
Definition Launcher_dtor (fuel : nat) : Method unit :=
  try_catch_log (StopDriveProcess fuel) ;;;
  self <- this ;;
  in_world (ipc_RemoveSharedMemory (initial_shared_memory_name_ self)) ;;;
  in_world (bi_remove (GetMountStatusSharedMemoryName (initial_shared_memory_name_ self))).

(** [maidsafe::on_scope_exit]: the guard runs [cleanup] when the scope is
    left by an exception; [Release] at the end of [body] disarms it. *)
Definition on_scope_exit {S A} (cleanup : M S unit) (body : M S A) : M S A :=
  fun s =>
    match body s with
    | Some (Throw e, s') =>
        match cleanup s' with
        | None => None
        | Some (Fault, s'') => Some (Fault, s'')
        | Some (_, s'') => Some (Throw e, s'')
        end
    | r => r
    end.

(** [Launcher::Launcher(options)]; [random_name] is what
    [RandomAlphaNumericString(32)] returned.  An exception leaves no
    object behind: the result is the world alone. *)
Definition Launcher_ctor (fuel : nat) (options : Options) (random_name : string)
  : M World Launcher :=
  fun w =>
    let self :=
      mkLauncher random_name (AdjustMountPath (mount_path options)) None None in
    let body :=
      on_scope_exit (try_catch_log (StopDriveProcess fuel))
        (CreateInitialSharedMemory options ;;;
         CreateMountStatusSharedMemory ;;;
         StartDriveProcess options ;;;
         WaitForDriveToMount) in
    match body (self, w) with
    | None => None
    | Some (Ret _, (self', w')) => Some (Ret self', w')
    | Some (Throw e, (_, w')) => Some (Throw e, w')
    | Some (Fault, (_, w')) => Some (Fault, w')
    end.

End Launcher.

(** ** Vocabulary of the properties *)

Definition is_lower_hex (c : ascii) : bool :=
  let n := byte_of_ascii c in
  ((48 <=? n) && (n <=? 57)) || ((97 <=? n) && (n <=? 102)).

(** The value of a lowercase hexadecimal digit, read off its character
    code. *)
Definition hex_value (c : ascii) : option Z :=
  let n := byte_of_ascii c in
  if (48 <=? n) && (n <=? 57) then Some (n - 48)
  else if (97 <=? n) && (n <=? 102) then Some (n - 87)
  else None.

(** Bit [i] of the [GetLogicalDrives()] mask: letter [A + i] is assigned. *)
Definition letter_assigned (drive_letters : Z) (i : Z) : bool := Z.testbit drive_letters i.

Definition drive_letter_path (i : Z) : fs_path :=
  Path (String (ascii_of_byte (byte_of_ascii "A" + i)) ":").

(** The mask after [k] letters have been considered: bit [k], or nothing
    once the bit has been shifted out of the 32-bit word. *)
Definition mask_at (k : Z) : Z := if k <? 32 then 2 ^ k else 0.

(** The child process of the world is alive. *)
Definition child_running (w : World) : bool :=
  match child w with
  | Some (mkProcess _ _ Running) => true
  | _ => false
  end.

(** The state and the value a finished computation left ([d] otherwise). *)
Definition state_after {S A} (r : option (outcome A * S)) (d : S) : S :=
  match r with
  | Some (_, s) => s
  | None => d
  end.

Definition value_after {S A} (r : option (outcome A * S)) (d : A) : A :=
  match r with
  | Some (Ret a, _) => a
  | _ => d
  end.

(** The world [n] seconds of the child later, the mutex being free. *)
Definition later (n : nat) (w : World) : World := Nat.iter n tick w.

(** The world [n] seconds of the child later, the launcher holding the
    mutex of the status region all that time. *)
Definition later_locked (n : nat) (w : World) : World := Nat.iter n (child_step false) w.

(** The steps of the child that take the mutex of the status region, or
    take it again on the way out of [condition.wait]. *)
Definition needs_mutex (act : ChildAction) : bool :=
  match act with
  | SignalMounted | WaitUnmountRequest | CallNotifyUnmounted => true
  | _ => false
  end.

(** The world once StopDriveProcess has raised the unmount flag at [a]. *)
Definition unmount_requested (a : nat) (w : World) : World :=
  set_memory (insert a (mkMountStatus (mounted_at a w) true)) w.

(** The world once [bp::terminate] has been called. *)
Definition terminated (w : World) : World := state_after (bp_terminate w) w.

(** A computation over the world that unmaps no region. *)
Definition keeps_memory {A} (m : M World A) : Prop :=
  forall w r w' a,
    m w = Some (r, w') -> is_Some (memory w !! a) -> is_Some (memory w' !! a).

(** The six strings of the Bootstrap Segment for given options. *)
Definition bootstrap_fields (o : Options) (uid rid : string) : list string :=
  [ path_string (mount_path o); path_string (storage_path o); uid; rid;
    path_string (drive_name o); if create_store o then "1" else "0" ].

(** The object as the member initialisers of the constructor leave it. *)
Definition initial_Launcher (win32 : bool) (options : Options) (random_name : string)
  : Launcher :=
  mkLauncher random_name (AdjustMountPath win32 (mount_path options)) None None.

(** The constructor's steps up to and including the spawn. *)
Definition construct_until_spawned
    (G : string -> fs_path) (options : Options) : Method unit :=
  CreateInitialSharedMemory options ;;;
  CreateMountStatusSharedMemory ;;;
  StartDriveProcess G options.

(** Construction fails with [e], leaving world [w'], at one of the three
    steps that precede the assignment of [drive_process_]. *)
Inductive fails_before_spawn
    (G : string -> fs_path) (win32 : bool) (options : Options) (random_name : string)
    (w : World) (e : error) (w' : World) : Prop :=
  | fails_creating_bootstrap l :
      CreateInitialSharedMemory options (initial_Launcher win32 options random_name, w)
        = Some (Throw e, (l, w')) ->
      fails_before_spawn G win32 options random_name w e w'
  | fails_creating_mount_status s1 l :
      CreateInitialSharedMemory options (initial_Launcher win32 options random_name, w)
        = Some (Ret tt, s1) ->
      CreateMountStatusSharedMemory s1 = Some (Throw e, (l, w')) ->
      fails_before_spawn G win32 options random_name w e w'
  | fails_resolving_executable s1 l :
      CreateInitialSharedMemory options (initial_Launcher win32 options random_name, w)
        = Some (Ret tt, s1) ->
      CreateMountStatusSharedMemory s1 = Some (Ret tt, (l, w')) ->
      GetDriveExecutablePath G (drive_type options) = Throw e ->
      fails_before_spawn G win32 options random_name w e w'.

(** ** Concrete scenarios *)

Module Scenario.

Definition exe_dir (name : string) : fs_path := Path ("/opt/maidsafe/" +:+ name).

Definition id_of (c : ascii) : Identity :=
  Identity_holding (string_of_list_ascii (List.repeat c 64)).

Definition options : Options :=
  mkOptions (Path "/tmp/x") (Path "/tmp/y") (id_of "u") (id_of "r") (Path "MyDrive")
    true kLocal "" "".

Definition name : string := "k3Vq0ZtB7mXw2LpA9sYdE4hRc6NuJf1G".

(** A machine on which [local_drive] follows the given script. *)
Definition machine (script : list ChildAction) : World :=
  mkWorld ∅ ∅ {[ "/opt/maidsafe/local_drive" := script ]} None.

(** The collaborator contract of the spec, with a second of work before
    the mount and before the unmount. *)
Definition well_behaved : list ChildAction :=
  [ CallReadAndRemoveInitialSharedMemory; Sleep; SignalMounted; WaitUnmountRequest;
    Sleep; CallNotifyUnmounted; ExitProcess 0 ].

(** Never reaches the mount and never ends. *)
Definition hung : list ChildAction := [].

(** Dies before it has read its parameters. *)
Definition crashing : list ChildAction := [Sleep; ExitProcess 3].

(** Never mounts and ends in the twelfth second. *)
Definition dawdling : list ChildAction :=
  CallReadAndRemoveInitialSharedMemory :: List.repeat Sleep 10 ++ [ExitProcess 0].

(** Honours the contract, but mounts in the eleventh second only. *)
Definition late : list ChildAction :=
  CallReadAndRemoveInitialSharedMemory :: List.repeat Sleep 9 ++
  [SignalMounted; WaitUnmountRequest; CallNotifyUnmounted; ExitProcess 0].

(** Mounts and never answers the unmount request. *)
Definition deaf : list ChildAction := [CallReadAndRemoveInitialSharedMemory; SignalMounted].

(** Honours the handshake and then never exits. *)
Definition lingering : list ChildAction :=
  [ CallReadAndRemoveInitialSharedMemory; SignalMounted; WaitUnmountRequest;
    CallNotifyUnmounted ].

(** Honours the handshake and signals unmounted a second time before it
    exits. *)
Definition repeating : list ChildAction :=
  [ CallReadAndRemoveInitialSharedMemory; SignalMounted; WaitUnmountRequest;
    CallNotifyUnmounted; CallNotifyUnmounted; ExitProcess 0 ].

(** The launcher and the world after the first two steps of the
    constructor on a machine without a drive executable. *)
Definition fresh_launcher : Launcher := initial_Launcher false options name.

Definition bootstrap_written : Launcher * World :=
  state_after (CreateInitialSharedMemory options (fresh_launcher, machine []))
    (fresh_launcher, machine []).

Definition region_created : Launcher * World :=
  state_after (CreateMountStatusSharedMemory bootstrap_written) bootstrap_written.

(** What the child-side reader returns there. *)
Definition child_options : Options :=
  value_after
    (ReadAndRemoveInitialSharedMemory name default_Options (snd region_created))
    default_Options.

(** The state after the spawn on [machine script]. *)
Definition spawned (script : list ChildAction) : Launcher * World :=
  state_after (construct_until_spawned exe_dir options (fresh_launcher, machine script))
    (fresh_launcher, machine script).

(** The world the mount wait leaves there. *)
Definition mount_wait_over (script : list ChildAction) : World :=
  snd (timed_wait kTimeoutSeconds (mounted_at 0) (snd (spawned script))).

(** A machine on which the Bootstrap Segment name is already taken. *)
Definition occupied : World := mkWorld {[ name := Segment [] ]} ∅ ∅ None.

(** Options naming no known drive variant. *)
Definition options_unknown_drive : Options :=
  mkOptions (Path "/tmp/x") (Path "/tmp/y") (id_of "u") (id_of "r") (Path "MyDrive")
    true 7 "" "".

Definition fresh_launcher' : Launcher := initial_Launcher false options_unknown_drive name.

Definition bootstrap_written' : Launcher * World :=
  state_after (CreateInitialSharedMemory options_unknown_drive (fresh_launcher', machine []))
    (fresh_launcher', machine []).

Definition region_created' : Launcher * World :=
  state_after (CreateMountStatusSharedMemory bootstrap_written') bootstrap_written'.

(** The state a successful construction leaves on [machine script], by
    evaluation. *)
Definition constructed (script : list ChildAction) : Launcher * World :=
  let r : option (outcome Launcher * World) :=
    Launcher_ctor exe_dir false 0 options name (machine script) in
  (value_after r fresh_launcher, state_after r (machine script)).

End Scenario.

(** ** Vocabulary of the further properties *)

(** The collaborator contract with [d1] seconds of work before the mount,
    [d2] seconds before the unmount, and an exit code. *)
Definition well_behaved_script (d1 d2 : nat) (code : Z) : list ChildAction :=
  (CallReadAndRemoveInitialSharedMemory :: List.repeat Sleep d1 ++
   SignalMounted :: WaitUnmountRequest :: List.repeat Sleep d2 ++
   [CallNotifyUnmounted; ExitProcess code])%list.

(** The command line StartDriveProcess builds. *)
Definition drive_command_line (exe : fs_path) (name : string) (options : Options)
  : list string :=
  if String.eqb (drive_logging_args options) ""
  then [path_string exe; shared_memory_option +:+ name]
  else [path_string exe; shared_memory_option +:+ name; drive_logging_args options].

(** The segment name a command line carries (what
    [child_shared_memory_name] reads off the arguments of a process). *)
Definition command_line_name (args : list string) : string :=
  match args with
  | _ :: a :: _ =>
      String.substring (String.length shared_memory_option)
        (String.length a - String.length shared_memory_option) a
  | _ => ""
  end.

(** A computation over the world that keeps a raised unmount flag at [a]
    raised. *)
Definition keeps_unmount {A} (a : nat) (m : M World A) : Prop :=
  forall w r w', m w = Some (r, w') -> unmount_at a w = true -> unmount_at a w' = true.

(** The world once CreateInitialSharedMemory has registered the segment. *)
Definition with_bootstrap (options : Options) (uid rid name : string) (w : World) : World :=
  set_names (insert name (Segment (bootstrap_fields options uid rid))) w.

(** The address CreateMountStatusSharedMemory maps the new region at, and
    the world once it has returned. *)
Definition region_address (w : World) : nat := fresh (dom (memory w)).

Definition with_status_region (name : string) (w : World) : World :=
  set_memory (insert (region_address w) (mkMountStatus false false))
    (set_memory (insert (region_address w) (mkMountStatus false false))
       (set_names (insert (GetMountStatusSharedMemoryName name)
                     (Region (region_address w))) w)).

(** ** Concrete cases for the further properties *)

Module Cases.

Definition id_u : string := string_of_list_ascii (List.repeat "u"%char 64).
Definition id_r : string := string_of_list_ascii (List.repeat "r"%char 64).

(** A world holding nothing but a well-formed Bootstrap Segment "boot". *)
Definition with_segment : World :=
  mkWorld {[ "boot" := Segment ["/tmp/x"; "/tmp/y"; id_u; id_r; "MyDrive"; "1"] ]} ∅ ∅ None.

(** The same with a unique id of three bytes. *)
Definition with_short_id : World :=
  mkWorld {[ "boot" := Segment ["/tmp/x"; "/tmp/y"; "abc"; id_r; "MyDrive"; "1"] ]} ∅ ∅ None.

(** The same with a create-store flag that is no number. *)
Definition with_bad_flag : World :=
  mkWorld {[ "boot" := Segment ["/tmp/x"; "/tmp/y"; id_u; id_r; "MyDrive"; "yes"] ]} ∅ ∅ None.

(** Options a caller may hold before the read. *)
Definition caller_options : Options :=
  mkOptions (Path "") (Path "") Identity_uninitialised Identity_uninitialised (Path "")
    false kNetworkConsole "--log_folder /tmp/log" "".

(** A world with one mapped region "status" whose flags are as given. *)
Definition with_region (is_mounted unmount_asked : bool) : World :=
  mkWorld {[ "status" := Region 0%nat ]} {[ 0%nat := mkMountStatus is_mounted unmount_asked ]}
    ∅ None.

(** A launcher holding that region, with a process handle or without. *)
Definition holder (h : option bp_child) : Launcher :=
  mkLauncher "boot" (Path "/tmp/x") (Some 0%nat) h.

End Cases.

(** * Properties *)

(** ** Evaluation checks *)

Example sha512_abc :
  HexEncode (SHA512.Hash "abc") =
  "ddaf35a193617abacc417349ae20413112e6fa4e89a97ea20a9eeee64b55d39a2192992a274fc1a836ba3c23a3feebbd454d4423643ce80e2a9ac94fa54ca49f".
Proof. vm_compute. reflexivity. Qed.

Example sha512_empty :
  HexEncode (SHA512.Hash "") =
  "cf83e1357eefb8bdf1542850d66d8007d620e4050b5715dc83f4a921d36ce9ce47d0d13c5d85f2b0ff8318d2877eec2f63b931bd47417a81a538327af927da3e".
Proof. vm_compute. reflexivity. Qed.

(** Two blocks: 200 bytes of input. *)
Example sha512_two_blocks :
  HexEncode (SHA512.Hash (string_of_list_ascii (List.repeat "a"%char 200))) =
  "4b11459c33f52a22ee8236782714c150a3b2c60994e9acee17fe68947a3e6789f31e7668394592da7bef827cddca88c4e6f86e4df7ed1ae6cba71f3e98faee9f".
Proof. vm_compute. reflexivity. Qed.

Example stoi_examples :
  stoi "1" = Ret 1 /\ stoi "0" = Ret 0 /\ stoi "  -42abc" = Ret (-42) /\
  stoi "x" = Throw std_invalid_argument /\ stoi "99999999999" = Throw std_out_of_range.
Proof. repeat split; reflexivity. Qed.

Example next_drive_fresh_machine :
  GetNextAvailableDrivePath 32 0x4 = Some (Ret (Path "D:")).
Proof. reflexivity. Qed.

Example next_drive_gap :
  GetNextAvailableDrivePath 32 0x2D = Some (Ret (Path "E:")).
Proof. reflexivity. Qed.

(** ** Strings and the region name *)

Lemma length_string_of_bytes (l : list Z) :
  String.length (string_of_bytes l) = length l.
Proof. induction l as [|b l IH]; simpl; congruence. Qed.

Lemma length_be_bytes (n : nat) (x : Z) : length (SHA512.be_bytes n x) = n.
Proof. induction n as [|n IH]; simpl; congruence. Qed.

Lemma Hash_length (s : string) : String.length (SHA512.Hash s) = 64%nat.
Proof.
  unfold SHA512.Hash, SHA512.hash_bytes, SHA512.digest_bytes.
  rewrite length_string_of_bytes.
  repeat rewrite List.length_app. repeat rewrite length_be_bytes. reflexivity.
Qed.

Lemma HexEncode_length (s : string) :
  String.length (HexEncode s) = (2 * String.length s)%nat.
Proof. induction s as [|c s IH]; simpl; [reflexivity | rewrite IH; lia]. Qed.

Lemma substr0_length (n : nat) (s : string) :
  String.length (substr0 n s) = Nat.min n (String.length s).
Proof.
  unfold substr0. revert s.
  induction n as [|n IH]; intros [|c s]; simpl; try reflexivity.
  now rewrite IH.
Qed.

Lemma byte_of_ascii_range (c : ascii) : 0 <= byte_of_ascii c < 256.
Proof.
  unfold byte_of_ascii. pose proof (N_ascii_bounded c). lia.
Qed.

Lemma hex_char_lower (i : Z) : 0 <= i < 16 -> is_lower_hex (hex_char i) = true.
Proof.
  intros Hi.
  assert (H : i = 0 \/ i = 1 \/ i = 2 \/ i = 3 \/ i = 4 \/ i = 5 \/ i = 6 \/ i = 7 \/
              i = 8 \/ i = 9 \/ i = 10 \/ i = 11 \/ i = 12 \/ i = 13 \/ i = 14 \/ i = 15)
    by lia.
  repeat (destruct H as [-> | H]; [reflexivity |]). subst i. reflexivity.
Qed.

Lemma HexEncode_lower_hex (s : string) :
  forallb is_lower_hex (list_ascii_of_string (HexEncode s)) = true.
Proof.
  induction s as [|c s IH]; simpl; [reflexivity |].
  pose proof (byte_of_ascii_range c) as Hc.
  rewrite !hex_char_lower, IH; [reflexivity | |].
  - apply Z.mod_pos_bound. lia.
  - split; [apply Z.div_pos; lia | apply Z.div_lt_upper_bound; lia].
Qed.

Lemma substr0_forallb (P : ascii -> bool) (n : nat) (s : string) :
  forallb P (list_ascii_of_string s) = true ->
  forallb P (list_ascii_of_string (substr0 n s)) = true.
Proof.
  unfold substr0. revert s.
  induction n as [|n IH]; intros [|c s]; simpl; try reflexivity.
  intros H. apply andb_true_iff in H as [Hc Hs].
  rewrite Hc. simpl. now apply IH.
Qed.

Lemma substr0_prefix (n : nat) (s : string) :
  exists rest, s = substr0 n s +:+ rest /\ String.length rest = (String.length s - n)%nat.
Proof.
  unfold substr0. revert s.
  induction n as [|n IH]; intros [|c s]; simpl.
  - exists "". auto.
  - exists (String c s). auto.
  - exists "". auto.
  - destruct (IH s) as (rest & Hs & Hl). exists rest. split; [| exact Hl].
    change (String c s = String c (String.substring 0 n s +:+ rest)). now f_equal.
Qed.

Lemma get_substr0 (n i : nat) (s : string) :
  (i < n)%nat -> String.get i (substr0 n s) = String.get i s.
Proof.
  intros Hi. unfold substr0. rewrite (substring_correct1 s 0 n i Hi).
  now rewrite Nat.add_0_r.
Qed.

Lemma byte_of_ascii_of_byte (b : Z) : 0 <= b < 256 -> byte_of_ascii (ascii_of_byte b) = b.
Proof.
  intros Hb. unfold byte_of_ascii, ascii_of_byte.
  rewrite Z.mod_small by lia.
  rewrite N_ascii_embedding by lia. lia.
Qed.

Lemma hex_value_hex_char (k : Z) : 0 <= k < 16 -> hex_value (hex_char k) = Some k.
Proof.
  intros Hk.
  assert (H : k = 0 \/ k = 1 \/ k = 2 \/ k = 3 \/ k = 4 \/ k = 5 \/ k = 6 \/ k = 7 \/
              k = 8 \/ k = 9 \/ k = 10 \/ k = 11 \/ k = 12 \/ k = 13 \/ k = 14 \/ k = 15)
    by lia.
  repeat (destruct H as [-> | H]; [reflexivity |]). subst k. reflexivity.
Qed.

Lemma HexEncode_get (l : list Z) :
  Forall (fun b => 0 <= b < 256) l ->
  forall i, (i < length l)%nat ->
    String.get (2 * i) (HexEncode (string_of_bytes l)) = Some (hex_char (nth i l 0 / 16)) /\
    String.get (2 * i + 1) (HexEncode (string_of_bytes l))
      = Some (hex_char (nth i l 0 mod 16)).
Proof.
  induction 1 as [| b l Hb Hl IH]; intros i Hi; [simpl in Hi; lia |].
  destruct i as [|i].
  - simpl. rewrite byte_of_ascii_of_byte by exact Hb. auto.
  - simpl in Hi. specialize (IH i ltac:(lia)).
    replace (2 * S i)%nat with (S (S (2 * i))) by lia.
    replace (S (S (2 * i)) + 1)%nat with (S (S (2 * i + 1))) by lia.
    exact IH.
Qed.

Lemma be_bytes_range (n : nat) (x : Z) : Forall (fun b => 0 <= b < 256) (SHA512.be_bytes n x).
Proof.
  induction n as [|n IH]; simpl; constructor; [| exact IH].
  apply Z.mod_pos_bound. lia.
Qed.

Lemma hash_bytes_range (msg : list Z) :
  Forall (fun b => 0 <= b < 256) (SHA512.hash_bytes msg).
Proof.
  unfold SHA512.hash_bytes, SHA512.digest_bytes.
  repeat (apply Forall_app; split); apply be_bytes_range.
Qed.

Lemma hash_bytes_length (msg : list Z) : length (SHA512.hash_bytes msg) = 64%nat.
Proof.
  unfold SHA512.hash_bytes, SHA512.digest_bytes.
  repeat rewrite List.length_app. repeat rewrite length_be_bytes. reflexivity.
Qed.

(** ** Reasoning about computations *)

Lemma bind_Ret_inv {S A B} (m : M S A) (f : A -> M S B) s b s' :
  bind m f s = Some (Ret b, s') ->
  exists a s1, m s = Some (Ret a, s1) /\ f a s1 = Some (Ret b, s').
Proof.
  unfold bind. destruct (m s) as [[[a | e |] s1] |]; try discriminate.
  intros H. eauto.
Qed.

Lemma bind_Ret {S A B} (m : M S A) (f : A -> M S B) s a s1 :
  m s = Some (Ret a, s1) -> bind m f s = f a s1.
Proof. unfold bind. now intros ->. Qed.

Lemma bind_Throw {S A B} (m : M S A) (f : A -> M S B) s e s1 :
  m s = Some (Throw e, s1) -> bind m f s = Some (Throw e, s1).
Proof. unfold bind. now intros ->. Qed.

Ltac bind_inv H :=
  let a := fresh "a" in
  let s := fresh "s" in
  let H1 := fresh H in
  apply bind_Ret_inv in H as (a & s & H1 & H).

(** ** The Bootstrap Segment *)

Lemma CreateInitialSharedMemory_ok (options : Options) (l : Launcher) (w : World)
    (uid rid : string) :
  unique_id options = Identity_holding uid ->
  root_parent_id options = Identity_holding rid ->
  names w !! initial_shared_memory_name_ l = None ->
  CreateInitialSharedMemory options (l, w) =
    Some (Ret tt,
          (l, set_names (insert (initial_shared_memory_name_ l)
                           (Segment (bootstrap_fields options uid rid))) w)).
Proof.
  intros Hu Hr Hn.
  unfold CreateInitialSharedMemory, bind, lift, this, in_world, ipc_CreateSharedMemory.
  rewrite Hu, Hr. simpl. rewrite Hn. reflexivity.
Qed.

Lemma ReadAndRemoveInitialSharedMemory_ok
    (name : string) (o : Options) (w : World) (a0 a1 a2 a3 a4 a5 : string) (n : Z) :
  names w !! name = Some (Segment [a0; a1; a2; a3; a4; a5]) ->
  String.length a2 = 64%nat ->
  String.length a3 = 64%nat ->
  stoi a5 = Ret n ->
  ReadAndRemoveInitialSharedMemory name o w =
    Some (Ret (mkOptions (Path a0) (Path a1) (Identity_holding a2) (Identity_holding a3)
                 (Path a4) (negb (n =? 0)) (drive_type o) (drive_logging_args o)
                 (GetMountStatusSharedMemoryName name)),
          set_names (delete name) w).
Proof.
  intros Hn H2 H3 H5.
  unfold ReadAndRemoveInitialSharedMemory, bind, ipc_ReadSharedMemory, at_index, lift,
    Identity_ctor, ipc_RemoveSharedMemory, modify, ret.
  rewrite Hn. simpl. rewrite H2, H3, H5. reflexivity.
Qed.

Lemma ReadAndRemoveInitialSharedMemory_name (name : string) (o o' : Options) (w w' : World) :
  ReadAndRemoveInitialSharedMemory name o w = Some (Ret o', w') ->
  mount_status_shared_object_name o' = GetMountStatusSharedMemoryName name.
Proof.
  unfold ReadAndRemoveInitialSharedMemory. intros H.
  repeat bind_inv H.
  unfold ret in H. inversion H. reflexivity.
Qed.

Lemma CreateMountStatusSharedMemory_Ret_inv (l l' : Launcher) (w w' : World) :
  CreateMountStatusSharedMemory (l, w) = Some (Ret tt, (l', w')) ->
  exists a,
    names w !! GetMountStatusSharedMemoryName (initial_shared_memory_name_ l) = None /\
    l' = set_mount_status_ (Some a) l /\
    w' = set_memory (insert a (mkMountStatus false false))
           (set_memory (insert a (mkMountStatus false false))
              (set_names (insert (GetMountStatusSharedMemoryName
                                    (initial_shared_memory_name_ l)) (Region a)) w)).
Proof.
  unfold CreateMountStatusSharedMemory, bind, this, in_world, bi_create_only, store,
    update_this, modify. simpl.
  destruct (names w !! _) eqn:E; [discriminate |].
  intros H. inversion H. eauto.
Qed.

(** C4. Round trip through the Bootstrap Segment: for options whose two ids
    hold 64 bytes and a segment name that is free, CreateInitialSharedMemory
    succeeds and stores the six fields (the create-store flag as "1" or
    "0"); ReadAndRemoveInitialSharedMemory on that name then succeeds,
    yields options with the same six values, and the name is no longer
    registered. *)
Theorem bootstrap_round_trip
    (options o : Options) (l : Launcher) (w : World) (uid rid : string) :
  unique_id options = Identity_holding uid -> String.length uid = 64%nat ->
  root_parent_id options = Identity_holding rid -> String.length rid = 64%nat ->
  names w !! initial_shared_memory_name_ l = None ->
  exists w1 o' w2,
    CreateInitialSharedMemory options (l, w) = Some (Ret tt, (l, w1)) /\
    names w1 !! initial_shared_memory_name_ l
      = Some (Segment (bootstrap_fields options uid rid)) /\
    ReadAndRemoveInitialSharedMemory (initial_shared_memory_name_ l) o w1
      = Some (Ret o', w2) /\
    mount_path o' = mount_path options /\
    storage_path o' = storage_path options /\
    unique_id o' = unique_id options /\
    root_parent_id o' = root_parent_id options /\
    drive_name o' = drive_name options /\
    create_store o' = create_store options /\
    names w2 !! initial_shared_memory_name_ l = None.
Proof.
  intros Hu Hul Hr Hrl Hfree.
  pose proof (CreateInitialSharedMemory_ok options l w uid rid Hu Hr Hfree) as Hc.
  set (name := initial_shared_memory_name_ l) in *.
  set (w1 := set_names (insert name (Segment (bootstrap_fields options uid rid))) w) in *.
  assert (Hseg : names w1 !! name = Some (Segment (bootstrap_fields options uid rid))).
  { unfold w1. simpl. apply lookup_insert_eq. }
  assert (Hstoi : stoi (if create_store options then "1" else "0")
                  = Ret (if create_store options then 1 else 0)).
  { destruct (create_store options); reflexivity. }
  pose proof (ReadAndRemoveInitialSharedMemory_ok name o w1 _ _ _ _ _ _ _
                Hseg Hul Hrl Hstoi) as Hread.
  eexists w1, _, _. split; [exact Hc |]. split; [exact Hseg |].
  split; [exact Hread |]. simpl.
  repeat split.
  - now destruct (mount_path options).
  - now destruct (storage_path options).
  - now rewrite Hu.
  - now rewrite Hr.
  - now destruct (drive_name options).
  - now destruct (create_store options).
  - apply lookup_delete_eq.
Qed.

Lemma bootstrap_round_trip_witness :
  exists w1 o' w2,
    CreateInitialSharedMemory Scenario.options
      (initial_Launcher false Scenario.options Scenario.name, Scenario.machine [])
      = Some (Ret tt, (initial_Launcher false Scenario.options Scenario.name, w1)) /\
    names w1 !! Scenario.name
      = Some (Segment (bootstrap_fields Scenario.options
                         (string_of_list_ascii (List.repeat "u"%char 64))
                         (string_of_list_ascii (List.repeat "r"%char 64)))) /\
    ReadAndRemoveInitialSharedMemory Scenario.name default_Options w1 = Some (Ret o', w2) /\
    mount_path o' = Path "/tmp/x" /\
    storage_path o' = Path "/tmp/y" /\
    unique_id o' = Scenario.id_of "u" /\
    root_parent_id o' = Scenario.id_of "r" /\
    drive_name o' = Path "MyDrive" /\
    create_store o' = true /\
    names w2 !! Scenario.name = None.
Proof.
  apply (bootstrap_round_trip Scenario.options default_Options
           (initial_Launcher false Scenario.options Scenario.name) (Scenario.machine [])
           (string_of_list_ascii (List.repeat "u"%char 64))
           (string_of_list_ascii (List.repeat "r"%char 64))).
  - reflexivity.
  - reflexivity.
  - reflexivity.
  - reflexivity.
  - reflexivity.
Defined.

(** C5. The Mount-Status Region name is the first 32 characters of the hex
    encoding of the SHA-512 hash of the Bootstrap Segment name: the encoding,
    128 characters long, is the name followed by 96 more characters, and for
    each of the first sixteen bytes of the digest the name holds, in order,
    the lowercase hexadecimal digit of its high half and that of its low
    half.  The name is always exactly 32 characters long, all of them
    lowercase hexadecimal; and the name the child-side reader derives opens
    exactly the region the launcher created and mapped for the same
    Bootstrap Segment name. *)
Theorem mount_status_name_deterministic_hex (s : string) :
  let name := GetMountStatusSharedMemoryName s in
  let digest := SHA512.hash_bytes (bytes_of_string s) in
  (exists rest,
      HexEncode (SHA512.Hash s) = name +:+ rest /\ String.length rest = 96%nat) /\
  (forall i, (i < 16)%nat ->
     exists hi lo,
       String.get (2 * i) name = Some hi /\ String.get (2 * i + 1) name = Some lo /\
       hex_value hi = Some (nth i digest 0 / 16) /\
       hex_value lo = Some (nth i digest 0 mod 16)) /\
  String.length name = 32%nat /\
  forallb is_lower_hex (list_ascii_of_string name) = true /\
  (forall (l l' : Launcher) (w w' : World) (o o' : Options) (v v' : World),
      initial_shared_memory_name_ l = s ->
      CreateMountStatusSharedMemory (l, w) = Some (Ret tt, (l', w')) ->
      ReadAndRemoveInitialSharedMemory s o v = Some (Ret o', v') ->
      exists a,
        mount_status_ l' = Some a /\
        names w' !! mount_status_shared_object_name o' = Some (Region a)).
Proof.
  intros name digest. split; [| split; [| split; [| split]]].
  - destruct (substr0_prefix 32 (HexEncode (SHA512.Hash s))) as (rest & Hs & Hl).
    exists rest. split; [exact Hs |].
    rewrite Hl, HexEncode_length, Hash_length. reflexivity.
  - intros i Hi.
    pose proof (hash_bytes_range (bytes_of_string s)) as Hr. fold digest in Hr.
    pose proof (hash_bytes_length (bytes_of_string s)) as Hlen. fold digest in Hlen.
    destruct (HexEncode_get digest Hr i ltac:(lia)) as [Hhi Hlo].
    assert (Hb : 0 <= nth i digest 0 < 256).
    { apply (proj1 (Forall_nth _ 0 digest) Hr). lia. }
    exists (hex_char (nth i digest 0 / 16)), (hex_char (nth i digest 0 mod 16)).
    unfold name, GetMountStatusSharedMemoryName.
    rewrite !get_substr0 by lia. unfold SHA512.Hash. fold digest.
    split; [exact Hhi |]. split; [exact Hlo |].
    split; apply hex_value_hex_char.
    + split; [apply Z.div_pos; lia | apply Z.div_lt_upper_bound; lia].
    + apply Z.mod_pos_bound. lia.
  - unfold name, GetMountStatusSharedMemoryName.
    rewrite substr0_length, HexEncode_length, Hash_length. reflexivity.
  - unfold name, GetMountStatusSharedMemoryName.
    apply substr0_forallb, HexEncode_lower_hex.
  - intros l l' w w' o o' v v' Hs Hc Hr.
    apply ReadAndRemoveInitialSharedMemory_name in Hr. rewrite Hr.
    apply CreateMountStatusSharedMemory_Ret_inv in Hc as (a & _ & -> & ->).
    exists a. split; [reflexivity |]. simpl. rewrite Hs. apply lookup_insert_eq.
Qed.

Lemma mount_status_name_deterministic_hex_witness :
  GetMountStatusSharedMemoryName "abc" = "ddaf35a193617abacc417349ae204131" /\
  (exists rest,
      HexEncode (SHA512.Hash "abc") = GetMountStatusSharedMemoryName "abc" +:+ rest /\
      String.length rest = 96%nat) /\
  exists a,
    mount_status_ (fst Scenario.region_created) = Some a /\
    names (snd Scenario.region_created)
      !! mount_status_shared_object_name Scenario.child_options = Some (Region a).
Proof.
  split; [vm_compute; reflexivity |].
  split; [exact (proj1 (mount_status_name_deterministic_hex "abc")) |].
  destruct (mount_status_name_deterministic_hex Scenario.name) as (_ & _ & _ & _ & H).
  apply (H (fst Scenario.bootstrap_written) (fst Scenario.region_created)
           (snd Scenario.bootstrap_written) (snd Scenario.region_created)
           default_Options Scenario.child_options
           (snd Scenario.region_created)
           (set_names (delete Scenario.name) (snd Scenario.region_created))).
  - reflexivity.
  - vm_compute. reflexivity.
  - vm_compute. reflexivity.
Defined.

(** ** Executable resolution *)

(** C6. Executable resolution is a pure mapping of the drive type: the four
    variants resolve to local_drive, local_drive_console, network_drive and
    network_drive_console, and every other value fails with
    invalid_parameter. *)
Theorem GetDriveExecutablePath_mapping (G : string -> fs_path) :
  GetDriveExecutablePath G kLocal = Ret (G "local_drive") /\
  GetDriveExecutablePath G kLocalConsole = Ret (G "local_drive_console") /\
  GetDriveExecutablePath G kNetwork = Ret (G "network_drive") /\
  GetDriveExecutablePath G kNetworkConsole = Ret (G "network_drive_console") /\
  (forall d : DriveType,
      d <> kLocal -> d <> kLocalConsole -> d <> kNetwork -> d <> kNetworkConsole ->
      GetDriveExecutablePath G d = Throw CommonErrors_invalid_parameter).
Proof.
  repeat split; try reflexivity.
  intros d H0 H1 H2 H3. unfold GetDriveExecutablePath.
  destruct (Z.eqb_spec d kLocal); [contradiction |].
  destruct (Z.eqb_spec d kLocalConsole); [contradiction |].
  destruct (Z.eqb_spec d kNetwork); [contradiction |].
  destruct (Z.eqb_spec d kNetworkConsole); [contradiction |].
  reflexivity.
Qed.

Lemma GetDriveExecutablePath_mapping_witness :
  GetDriveExecutablePath Scenario.exe_dir 4 = Throw CommonErrors_invalid_parameter /\
  GetDriveExecutablePath Scenario.exe_dir (-1) = Throw CommonErrors_invalid_parameter.
Proof.
  destruct (GetDriveExecutablePath_mapping Scenario.exe_dir) as (_ & _ & _ & _ & H).
  split; apply H; unfold kLocal, kLocalConsole, kNetwork, kNetworkConsole; lia.
Defined.

(** ** The next drive letter *)

Lemma land_pow2 (x k : Z) :
  0 <= k -> Z.land x (2 ^ k) = if Z.testbit x k then 2 ^ k else 0.
Proof.
  intros Hk. apply Z.bits_inj'. intros i Hi.
  rewrite Z.land_spec, Z.pow2_bits_eqb by assumption.
  destruct (Z.eqb_spec k i) as [-> | Hne].
  - destruct (Z.testbit x i); simpl.
    + rewrite Z.pow2_bits_true; auto.
    + now rewrite Z.bits_0.
  - rewrite andb_false_r. destruct (Z.testbit x k).
    + rewrite Z.pow2_bits_false; auto.
    + now rewrite Z.bits_0.
Qed.

Lemma scan_drive_letters_unfold (fuel : nat) (dl mask letter : Z) :
  scan_drive_letters fuel dl mask letter =
    if Z.land dl mask =? 0 then Some letter
    else
      match fuel with
      | O => None
      | S fuel' => scan_drive_letters fuel' dl (uint32 (Z.shiftl mask 1)) (letter + 1)
      end.
Proof. destruct fuel; reflexivity. Qed.

Lemma mask_at_next (k : Z) :
  0 <= k < 32 -> uint32 (Z.shiftl (2 ^ k) 1) = mask_at (k + 1).
Proof.
  intros Hk. unfold mask_at, uint32.
  rewrite Z.shiftl_mul_pow2 by lia.
  replace (2 ^ k * 2 ^ 1) with (2 ^ (k + 1)) by (rewrite Z.pow_add_r; lia).
  destruct (Z.ltb_spec (k + 1) 32).
  - apply Z.mod_small. split; [apply Z.pow_nonneg; lia |].
    apply Z.pow_lt_mono_r; lia.
  - assert (k + 1 = 32) as -> by lia. reflexivity.
Qed.

Lemma scan_drive_letters_spec (dl : Z) (n : nat) :
  forall (k letter : Z) (fuel : nat),
    0 <= k -> Z.of_nat n = 32 - k -> (n <= fuel)%nat ->
    exists j,
      k <= j <= 32 /\
      scan_drive_letters fuel dl (mask_at k) letter = Some (letter + (j - k)) /\
      (forall i, k <= i < j -> Z.testbit dl i = true) /\
      (j < 32 -> Z.testbit dl j = false).
Proof.
  induction n as [|n IH]; intros k letter fuel Hk Hn Hfuel.
  - exists k. assert (k = 32) as -> by lia.
    rewrite scan_drive_letters_unfold. unfold mask_at. simpl.
    rewrite Z.land_0_r. simpl.
    repeat split; try lia. f_equal. lia.
  - assert (Hk32 : k < 32) by lia.
    rewrite scan_drive_letters_unfold.
    assert (Hm : mask_at k = 2 ^ k).
    { unfold mask_at. destruct (Z.ltb_spec k 32); [reflexivity | lia]. }
    rewrite Hm. rewrite land_pow2 by lia.
    destruct (Z.testbit dl k) eqn:Hbit.
    + assert (Hnz : (2 ^ k =? 0) = false).
      { apply Z.eqb_neq. apply Z.pow_nonzero; lia. }
      rewrite Hnz.
      destruct fuel as [|fuel]; [lia |].
      rewrite mask_at_next by lia.
      destruct (IH (k + 1) (letter + 1) fuel) as (j & Hj & Hs & Hset & Hclr); try lia.
      exists j. repeat split; try lia.
      * rewrite Hs. f_equal. lia.
      * intros i Hi. destruct (Z.eq_dec i k) as [-> | Hne]; [assumption |].
        apply Hset. lia.
      * assumption.
    + simpl. exists k. repeat split; try lia.
      * f_equal. lia.
      * intros _. assumption.
Qed.

(** C9, as the code has it.  With fuel for the at most 30 iterations of the
    loop, GetNextAvailableDrivePath returns the first letter from C: onward
    that is not assigned, and it fails with no_drive_letter_available
    exactly when every letter from C: to Z: is assigned; the letters A: and
    B: are never considered. *)
Theorem GetNextAvailableDrivePath_from_C (drive_letters : Z) (fuel : nat) :
  (30 <= fuel)%nat ->
  ((forall i, 2 <= i < 26 -> letter_assigned drive_letters i = true) /\
   GetNextAvailableDrivePath fuel drive_letters
     = Some (Throw DriveErrors_no_drive_letter_available))
  \/
  (exists j,
      2 <= j < 26 /\
      letter_assigned drive_letters j = false /\
      (forall i, 2 <= i < j -> letter_assigned drive_letters i = true) /\
      GetNextAvailableDrivePath fuel drive_letters = Some (Ret (drive_letter_path j))).
Proof.
  intros Hfuel. unfold GetNextAvailableDrivePath, letter_assigned.
  destruct (scan_drive_letters_spec drive_letters 30 2 (byte_of_ascii "C") fuel)
    as (j & Hj & Hs & Hset & Hclr); try lia.
  change 4 with (mask_at 2). rewrite Hs.
  change (byte_of_ascii "C") with 67. change (byte_of_ascii "Z") with 90.
  destruct (Z.gtb_spec (67 + (j - 2)) 90) as [Hgt | Hle].
  - left. split; [| reflexivity]. intros i Hi. apply Hset. lia.
  - right. exists j. repeat split; try lia.
    + apply Hclr. lia.
    + intros i Hi. apply Hset. lia.
    + unfold drive_letter_path. change (byte_of_ascii "A") with 65.
      replace (67 + (j - 2)) with (65 + j) by lia. reflexivity.
Qed.

Lemma GetNextAvailableDrivePath_from_C_witness :
  ((forall i, 2 <= i < 26 -> letter_assigned 0x4 i = true) /\
   GetNextAvailableDrivePath 32 0x4 = Some (Throw DriveErrors_no_drive_letter_available))
  \/
  (exists j,
      2 <= j < 26 /\
      letter_assigned 0x4 j = false /\
      (forall i, 2 <= i < j -> letter_assigned 0x4 i = true) /\
      GetNextAvailableDrivePath 32 0x4 = Some (Ret (drive_letter_path j))).
Proof.
  apply (GetNextAvailableDrivePath_from_C 0x4 32). lia.
Defined.

(** C9, as stated, fails: with C: to Z: assigned and A:, B: free the helper
    throws no_drive_letter_available although letters of A-Z remain
    unused. *)
Lemma GetNextAvailableDrivePath_not_A_to_Z :
  ~ (GetNextAvailableDrivePath 32 0x3FFFFFC
       = Some (Throw DriveErrors_no_drive_letter_available) ->
     forall i, 0 <= i < 26 -> letter_assigned 0x3FFFFFC i = true).
Proof.
  intros H. specialize (H eq_refl 0 ltac:(lia)). discriminate H.
Qed.

(** ** The child process and the two waits *)

Lemma later_S (n : nat) (w : World) : later (S n) w = later n (tick w).
Proof. unfold later. apply Nat.iter_succ_r. Qed.

Lemma later_locked_S (n : nat) (w : World) :
  later_locked (S n) w = later_locked n (child_step false w).
Proof. unfold later_locked. apply Nat.iter_succ_r. Qed.

Lemma bp_wait_for_exit_unfold (fuel : nat) (w : World) :
  bp_wait_for_exit fuel w =
    match child w with
    | Some (mkProcess _ _ (Exited code)) => Some (Ret (Some code), w)
    | Some (mkProcess _ _ Terminated) => Some (Ret (Some 9), w)
    | Some (mkProcess _ _ Running) =>
        match fuel with
        | O => None
        | S fuel' => bp_wait_for_exit fuel' (child_step false w)
        end
    | Some (mkProcess _ _ NotStarted) | None => Some (Ret None, w)
    end.
Proof. destruct fuel; reflexivity. Qed.

Lemma bp_wait_for_exit_ended (fuel : nat) (w : World) :
  child_running w = false -> exists c, bp_wait_for_exit fuel w = Some (Ret c, w).
Proof.
  intros H. rewrite bp_wait_for_exit_unfold. unfold child_running in H.
  destruct (child w) as [[args todo []] |]; try discriminate; eauto.
Qed.

Lemma child_running_inv (w : World) :
  child_running w = true -> exists args todo, child w = Some (mkProcess args todo Running).
Proof.
  unfold child_running. destruct (child w) as [[args todo []] |]; try discriminate. eauto.
Qed.

(** The wait returns as soon as the child has ended, and then only; the
    child gets there with the mutex taken. *)
Lemma bp_wait_for_exit_returns (n : nat) :
  forall (w : World) (fuel : nat),
    child_running (later_locked n w) = false -> (n <= fuel)%nat ->
    exists c m,
      (m <= n)%nat /\ bp_wait_for_exit fuel w = Some (Ret c, later_locked m w) /\
      child_running (later_locked m w) = false.
Proof.
  induction n as [|n IH]; intros w fuel Hend Hfuel.
  - destruct (bp_wait_for_exit_ended fuel w Hend) as [c Hc].
    exists c, 0%nat. auto.
  - destruct (child_running w) eqn:Hrun.
    + destruct fuel as [|fuel]; [lia |].
      rewrite later_locked_S in Hend.
      destruct (IH (child_step false w) fuel Hend ltac:(lia)) as (c & m & Hm & Hw & Hr).
      exists c, (S m). rewrite later_locked_S. split; [lia |]. split; [| assumption].
      rewrite bp_wait_for_exit_unfold.
      apply child_running_inv in Hrun as (args & todo & ->). assumption.
    + destruct (bp_wait_for_exit_ended fuel w Hrun) as [c Hc].
      exists c, 0%nat. split; [lia |]. auto.
Qed.

Lemma bp_wait_for_exit_blocks (fuel : nat) :
  forall w : World,
    (forall n, child_running (later_locked n w) = true) -> bp_wait_for_exit fuel w = None.
Proof.
  induction fuel as [|fuel IH]; intros w Hrun.
  - pose proof (Hrun 0%nat) as H0. change (later_locked 0 w) with w in H0.
    apply child_running_inv in H0 as (args & todo & H0).
    simpl. now rewrite H0.
  - pose proof (Hrun 0%nat) as H0. change (later_locked 0 w) with w in H0.
    apply child_running_inv in H0 as (args & todo & H0).
    rewrite bp_wait_for_exit_unfold, H0. apply IH.
    intros n. rewrite <- later_locked_S. apply Hrun.
Qed.

Lemma bp_wait_for_exit_result (fuel : nat) :
  forall (w w' : World) (r : outcome (option Z)),
    bp_wait_for_exit fuel w = Some (r, w') ->
    child_running w' = false /\ exists c, r = Ret c.
Proof.
  induction fuel as [|fuel IH]; intros w w' r; rewrite bp_wait_for_exit_unfold;
    destruct (child w) as [[args todo []] |] eqn:Hc; intros H;
    try discriminate; try (apply IH in H; exact H);
    inversion H; subst; unfold child_running; rewrite Hc; eauto.
Qed.

(** A child with nothing left to do and no exit stays as it is. *)
Lemma child_step_idle (mutex_free : bool) (w : World) (args : list string) :
  child w = Some (mkProcess args [] Running) -> child_step mutex_free w = w.
Proof. unfold child_step. now intros ->. Qed.

Lemma tick_idle (w : World) (args : list string) :
  child w = Some (mkProcess args [] Running) -> tick w = w.
Proof. apply child_step_idle. Qed.

Lemma later_idle (n : nat) (w : World) (args : list string) :
  child w = Some (mkProcess args [] Running) -> later n w = w.
Proof.
  intros H. induction n as [|n IH]; [reflexivity |].
  rewrite later_S, (tick_idle w args H). exact IH.
Qed.

Lemma later_locked_idle (n : nat) (w : World) (args : list string) :
  child w = Some (mkProcess args [] Running) -> later_locked n w = w.
Proof.
  intros H. induction n as [|n IH]; [reflexivity |].
  rewrite later_locked_S, (child_step_idle false w args H). exact IH.
Qed.

Lemma idle_child_runs_forever (w : World) (args : list string) :
  child w = Some (mkProcess args [] Running) ->
  forall n, child_running (later_locked n w) = true.
Proof.
  intros H n. rewrite (later_locked_idle n w args H). unfold child_running. now rewrite H.
Qed.

Lemma timed_wait_false (seconds : nat) (pred : World -> bool) :
  forall w w', timed_wait seconds pred w = (false, w') -> pred w' = false.
Proof.
  induction seconds as [|n IH]; intros w w'; simpl;
    destruct (pred w) eqn:Hp; try discriminate.
  - intros H. inversion H. now subst.
  - apply IH.
Qed.

Lemma timed_wait_now (seconds : nat) (pred : World -> bool) (w : World) :
  pred w = true -> timed_wait seconds pred w = (true, w).
Proof. intros H. destruct seconds; simpl; now rewrite H. Qed.

(** ** StopDriveProcess *)

Arguments timed_wait : simpl never.
Arguments bp_wait_for_exit : simpl never.
Arguments tick : simpl never.
Arguments child_step : simpl never.

(** With a null process handle the call returns at once and touches
    neither the object nor the world, whatever [mount_status_] is. *)
Lemma StopDriveProcess_null (fuel : nat) (l : Launcher) (w : World) :
  drive_process_ l = None -> StopDriveProcess fuel (l, w) = Some (Ret tt, (l, w)).
Proof.
  intros H. unfold StopDriveProcess, bind, this. simpl. rewrite H. reflexivity.
Qed.

(** With a handle and a mapped region: the flag, the bounded wait, then
    either the unbounded wait for the exit or the kill. *)
Lemma StopDriveProcess_live (fuel : nat) (l : Launcher) (w : World)
    (h : bp_child) (a : nat) (ms : MountStatus) :
  drive_process_ l = Some h ->
  mount_status_ l = Some a ->
  memory w !! a = Some ms ->
  StopDriveProcess fuel (l, w) =
    let (ok, w2) :=
      timed_wait kTimeoutSeconds (fun w => negb (mounted_at a w)) (unmount_requested a w) in
    if ok then
      match bp_wait_for_exit fuel w2 with
      | Some (_, w3) => Some (Ret tt, (set_drive_process_ None l, w3))
      | None => None
      end
    else Some (Ret tt, (set_drive_process_ None l, terminated w2)).
Proof.
  intros Hh Ha Hm.
  assert (Hderef : deref_mount_status (l, w) = Some (Ret a, (l, w))).
  { unfold deref_mount_status, bind, this, in_world, load. simpl.
    rewrite Ha. simpl. now rewrite Hm. }
  assert (Hload : in_world (load a) (l, w) = Some (Ret ms, (l, w))).
  { unfold in_world, load. simpl. now rewrite Hm. }
  assert (Hstore : in_world (store a (mkMountStatus (mounted ms) true)) (l, w)
                   = Some (Ret tt, (l, unmount_requested a w))).
  { unfold in_world, store, modify, unmount_requested, mounted_at. simpl. now rewrite Hm. }
  unfold StopDriveProcess.
  erewrite bind_Ret by reflexivity. cbn [fst snd]. rewrite Hh.
  erewrite bind_Ret by exact Hderef.
  erewrite bind_Ret by exact Hload.
  erewrite bind_Ret by exact Hstore.
  destruct (timed_wait kTimeoutSeconds (fun w => negb (mounted_at a w))
              (unmount_requested a w)) as [ok w2] eqn:Ht.
  erewrite bind_Ret by (unfold in_world; simpl; rewrite Ht; reflexivity).
  destruct ok.
  - destruct (bp_wait_for_exit fuel w2) as [[r w3] |] eqn:Hw.
    + destruct (bp_wait_for_exit_result fuel w2 w3 r Hw) as [_ [c ->]].
      erewrite bind_Ret by (unfold in_world; simpl; rewrite Hw; reflexivity).
      reflexivity.
    + unfold bind, in_world. simpl. now rewrite Hw.
  - unfold bind, in_world, terminated, bp_terminate. simpl.
    destruct (child w2) as [[args todo []] |]; reflexivity.
Qed.

Lemma terminated_not_running (w : World) : child_running (terminated w) = false.
Proof.
  unfold terminated, bp_terminate, child_running.
  destruct (child w) as [[args todo []] |] eqn:Hc; simpl; try rewrite Hc; reflexivity.
Qed.

Lemma terminated_names (w : World) : names (terminated w) = names w.
Proof.
  unfold terminated, bp_terminate.
  destruct (child w) as [[args todo []] |]; reflexivity.
Qed.

(** The three ways the call can go, told apart by what precedes the
    first access through [mount_status_]. *)
Lemma StopDriveProcess_cases (fuel : nat) (l : Launcher) (w : World) :
  (drive_process_ l = None) \/
  (exists h, drive_process_ l = Some h /\
     StopDriveProcess fuel (l, w) = Some (Fault, (l, w))) \/
  (exists h a ms,
     drive_process_ l = Some h /\ mount_status_ l = Some a /\ memory w !! a = Some ms).
Proof.
  destruct (drive_process_ l) as [h |] eqn:Hh; [right | now left].
  destruct (mount_status_ l) as [a |] eqn:Ha.
  - destruct (memory w !! a) as [ms |] eqn:Hm.
    + right. eauto 10.
    + left. exists h. split; [reflexivity |].
      unfold StopDriveProcess, deref_mount_status, bind, this, in_world, load. simpl.
      rewrite Hh. simpl. rewrite Ha. simpl. now rewrite Hm.
  - left. exists h. split; [reflexivity |].
    unfold StopDriveProcess, deref_mount_status, bind, this. simpl.
    rewrite Hh. simpl. now rewrite Ha.
Qed.

(** Whenever the call returns normally, the handle is null, and no child
    that a handle stood for is left running. *)
Lemma StopDriveProcess_Ret_inv (fuel : nat) (l l' : Launcher) (w w' : World) :
  StopDriveProcess fuel (l, w) = Some (Ret tt, (l', w')) ->
  l' = set_drive_process_ None l /\
  (drive_process_ l <> None -> child_running w' = false).
Proof.
  intros H.
  destruct (StopDriveProcess_cases fuel l w)
    as [Hn | [(h & Hh & Hf) | (h & a & ms & Hh & Ha & Hm)]].
  - rewrite (StopDriveProcess_null fuel l w Hn) in H. inversion H. subst.
    split; [| congruence]. destruct l'. simpl in Hn. now subst.
  - rewrite Hf in H. discriminate.
  - rewrite (StopDriveProcess_live fuel l w h a ms Hh Ha Hm) in H.
    destruct (timed_wait _ _ _) as [[|] w2].
    + destruct (bp_wait_for_exit fuel w2) as [[r w3] |] eqn:Hw; [| discriminate].
      inversion H. subst. split; [reflexivity |]. intros _.
      now apply bp_wait_for_exit_result in Hw as [Hw _].
    + inversion H. subst. split; [reflexivity |]. intros _.
      apply terminated_not_running.
Qed.

(** C7. Once StopDriveProcess has returned, a second call (with any fuel)
    returns at once without raising and changes nothing: the handle stays
    null, and the object and the world, so the flags and the state of the
    child process, are the ones the first call left. *)
Theorem StopDriveProcess_idempotent (fuel fuel' : nat) (s s' : Launcher * World) :
  StopDriveProcess fuel s = Some (Ret tt, s') ->
  StopDriveProcess fuel' s' = Some (Ret tt, s') /\ drive_process_ (fst s') = None.
Proof.
  destruct s as [l w], s' as [l' w']. intros H.
  apply StopDriveProcess_Ret_inv in H as [-> _].
  split; [| reflexivity]. now apply StopDriveProcess_null.
Qed.

Lemma StopDriveProcess_idempotent_witness :
  let s := Scenario.constructed Scenario.well_behaved in
  let s' := state_after (StopDriveProcess 5 s) s in
  StopDriveProcess 0 s' = Some (Ret tt, s') /\ drive_process_ (fst s') = None.
Proof.
  apply (StopDriveProcess_idempotent 5 0 (Scenario.constructed Scenario.well_behaved)).
  vm_compute. reflexivity.
Defined.

(** ** Teardown *)

Lemma Launcher_dtor_after_stop (fuel : nat) (l l1 : Launcher) (w w1 : World) :
  StopDriveProcess fuel (l, w) = Some (Ret tt, (l1, w1)) ->
  Launcher_dtor fuel (l, w) =
    Some (Ret tt,
          (l1, set_names (delete (GetMountStatusSharedMemoryName
                                    (initial_shared_memory_name_ l1)))
                 (set_names (delete (initial_shared_memory_name_ l1)) w1))).
Proof.
  intros H. unfold Launcher_dtor.
  erewrite bind_Ret by (unfold try_catch_log; rewrite H; reflexivity).
  reflexivity.
Qed.

(** C3, as the code has it.  When the process handle is set and the
    mounted flag is still true ten seconds after the unmount request,
    StopDriveProcess kills the child, clears the handle and returns without
    raising; it leaves the shared-memory names as they are.  The destructor,
    run directly or after such an explicit stop, also returns without
    raising and leaves neither the Bootstrap Segment name nor the
    Mount-Status Region name registered. *)
Theorem teardown_after_unmount_timeout
    (fuel : nat) (l : Launcher) (w w2 : World) (h : bp_child) (a : nat) (ms : MountStatus) :
  drive_process_ l = Some h ->
  mount_status_ l = Some a ->
  memory w !! a = Some ms ->
  timed_wait kTimeoutSeconds (fun w => negb (mounted_at a w)) (unmount_requested a w)
    = (false, w2) ->
  let name := initial_shared_memory_name_ l in
  let stopped := (set_drive_process_ None l, terminated w2) in
  StopDriveProcess fuel (l, w) = Some (Ret tt, stopped) /\
  drive_process_ (fst stopped) = None /\
  child_running (terminated w2) = false /\
  (forall args todo,
      child w2 = Some (mkProcess args todo Running) ->
      child (terminated w2) = Some (mkProcess args todo Terminated)) /\
  names (terminated w2) = names w2 /\
  exists w4,
    Launcher_dtor fuel (l, w) = Some (Ret tt, (set_drive_process_ None l, w4)) /\
    Launcher_dtor fuel stopped = Some (Ret tt, (set_drive_process_ None l, w4)) /\
    child_running w4 = false /\
    names w4 !! name = None /\
    names w4 !! GetMountStatusSharedMemoryName name = None.
Proof.
  intros Hh Ha Hm Ht name stopped.
  assert (Hstop : StopDriveProcess fuel (l, w) = Some (Ret tt, stopped)).
  { rewrite (StopDriveProcess_live fuel l w h a ms Hh Ha Hm), Ht. reflexivity. }
  split; [exact Hstop |]. split; [reflexivity |].
  split; [apply terminated_not_running |].
  split.
  { intros args todo Hc. unfold terminated, bp_terminate. rewrite Hc. reflexivity. }
  split; [apply terminated_names |].
  eexists. split; [| split].
  - rewrite (Launcher_dtor_after_stop fuel l _ w _ Hstop). reflexivity.
  - unfold stopped.
    rewrite (Launcher_dtor_after_stop fuel _ _ _ _
               (StopDriveProcess_null fuel (set_drive_process_ None l) (terminated w2)
                  eq_refl)).
    reflexivity.
  - subst name. simpl. split; [| split].
    + pose proof (terminated_not_running w2) as Hr. unfold child_running in *.
      simpl. exact Hr.
    + set (n := initial_shared_memory_name_ l).
      destruct (decide (GetMountStatusSharedMemoryName n = n)) as [E | E].
      * rewrite E. apply lookup_delete_eq.
      * rewrite lookup_delete_ne by exact E. apply lookup_delete_eq.
    + apply lookup_delete_eq.
Qed.

Lemma teardown_after_unmount_timeout_witness :
  let l := fst (Scenario.constructed Scenario.deaf) in
  let w := snd (Scenario.constructed Scenario.deaf) in
  let w2 := snd (timed_wait kTimeoutSeconds (fun w => negb (mounted_at 0 w))
                   (unmount_requested 0 w)) in
  let name := initial_shared_memory_name_ l in
  let stopped := (set_drive_process_ None l, terminated w2) in
  StopDriveProcess 0 (l, w) = Some (Ret tt, stopped) /\
  drive_process_ (fst stopped) = None /\
  child_running (terminated w2) = false /\
  (forall args todo,
      child w2 = Some (mkProcess args todo Running) ->
      child (terminated w2) = Some (mkProcess args todo Terminated)) /\
  names (terminated w2) = names w2 /\
  exists w4,
    Launcher_dtor 0 (l, w) = Some (Ret tt, (set_drive_process_ None l, w4)) /\
    Launcher_dtor 0 stopped = Some (Ret tt, (set_drive_process_ None l, w4)) /\
    child_running w4 = false /\
    names w4 !! name = None /\
    names w4 !! GetMountStatusSharedMemoryName name = None.
Proof.
  intros l w w2.
  apply (teardown_after_unmount_timeout 0 l w w2 ChildHandle 0%nat
           (mkMountStatus true false)).
  - vm_compute. reflexivity.
  - vm_compute. reflexivity.
  - vm_compute. reflexivity.
  - vm_compute. reflexivity.
Defined.

(** C3, as stated, fails for the explicit stop: with a live child that never
    clears the mounted flag, StopDriveProcess kills it and returns, and the
    Mount-Status Region name is still registered afterwards. *)
Lemma explicit_stop_keeps_region_name :
  let s := Scenario.constructed Scenario.deaf in
  let s' := state_after (StopDriveProcess 0 s) s in
  child_running (snd s) = true /\
  fst (timed_wait kTimeoutSeconds (fun w => negb (mounted_at 0 w))
         (unmount_requested 0 (snd s))) = false /\
  StopDriveProcess 0 s = Some (Ret tt, s') /\
  child (snd s') =
    Some (mkProcess ["/opt/maidsafe/local_drive"; "--shared_memory " +:+ Scenario.name]
            [] Terminated) /\
  names (snd s') !! GetMountStatusSharedMemoryName Scenario.name = Some (Region 0%nat).
Proof. vm_compute. repeat split; reflexivity. Qed.

(** C8, as the code has it.  When the unmounted signal arrives within the
    ten seconds, StopDriveProcess waits for the child's exit with
    bp::wait_for_exit, which has no timeout and yields an exit code or an
    error code, and it waits with the mutex of the status region still
    held: the call returns (handle cleared, nothing raised) as soon as the
    child, running without that mutex, has ended, and it never returns when
    that child never ends. *)
Theorem stop_waits_for_exit_unbounded
    (fuel : nat) (l : Launcher) (w w2 : World) (h : bp_child) (a : nat) (ms : MountStatus) :
  drive_process_ l = Some h ->
  mount_status_ l = Some a ->
  memory w !! a = Some ms ->
  timed_wait kTimeoutSeconds (fun w => negb (mounted_at a w)) (unmount_requested a w)
    = (true, w2) ->
  (forall n,
      child_running (later_locked n w2) = false -> (n <= fuel)%nat ->
      exists c m,
        (m <= n)%nat /\
        bp_wait_for_exit fuel w2 = Some (Ret c, later_locked m w2) /\
        StopDriveProcess fuel (l, w)
          = Some (Ret tt, (set_drive_process_ None l, later_locked m w2)) /\
        child_running (later_locked m w2) = false) /\
  ((forall n, child_running (later_locked n w2) = true) ->
   StopDriveProcess fuel (l, w) = None).
Proof.
  intros Hh Ha Hm Ht.
  rewrite (StopDriveProcess_live fuel l w h a ms Hh Ha Hm), Ht.
  split.
  - intros n Hend Hfuel.
    destruct (bp_wait_for_exit_returns n w2 fuel Hend Hfuel) as (c & m & Hle & Hw & Hr).
    exists c, m. rewrite Hw. auto.
  - intros Hrun. now rewrite (bp_wait_for_exit_blocks fuel w2 Hrun).
Qed.

Lemma stop_waits_for_exit_unbounded_witness :
  let l := fst (Scenario.constructed Scenario.well_behaved) in
  let w := snd (Scenario.constructed Scenario.well_behaved) in
  let w2 := snd (timed_wait kTimeoutSeconds (fun w => negb (mounted_at 0 w))
                   (unmount_requested 0 w)) in
  exists c m,
    (m <= 1)%nat /\
    bp_wait_for_exit 5 w2 = Some (Ret c, later_locked m w2) /\
    StopDriveProcess 5 (l, w)
      = Some (Ret tt, (set_drive_process_ None l, later_locked m w2)) /\
    child_running (later_locked m w2) = false.
Proof.
  intros l w w2.
  refine (proj1 (stop_waits_for_exit_unbounded 5 l w w2 ChildHandle 0%nat
                   (mkMountStatus true false) _ _ _ _) 1%nat _ _).
  - vm_compute. reflexivity.
  - vm_compute. reflexivity.
  - vm_compute. reflexivity.
  - vm_compute. reflexivity.
  - vm_compute. reflexivity.
  - lia.
Defined.

(** C8, as stated, fails: a child that honours the handshake and then never
    exits signals unmounted within the bound, and StopDriveProcess does not
    return, whatever the fuel. *)
Lemma stop_never_returns_for_lingering_child :
  let s := Scenario.constructed Scenario.lingering in
  fst (timed_wait kTimeoutSeconds (fun w => negb (mounted_at 0 w))
         (unmount_requested 0 (snd s))) = true /\
  ~ (exists fuel r, StopDriveProcess fuel s = Some r).
Proof.
  intros s. split; [vm_compute; reflexivity |].
  intros (fuel & r & H).
  rewrite (surjective_pairing s) in H.
  rewrite (StopDriveProcess_live fuel (fst s) (snd s) ChildHandle 0%nat
             (mkMountStatus true false)) in H;
    try (vm_compute; reflexivity).
  set (tw := timed_wait _ _ _) in H.
  assert (E : tw = (true, snd tw)) by (vm_compute; reflexivity).
  rewrite E in H.
  assert (Hc : child (snd tw) =
               Some (mkProcess ["/opt/maidsafe/local_drive";
                                "--shared_memory " +:+ Scenario.name] [] Running))
    by (vm_compute; reflexivity).
  rewrite (bp_wait_for_exit_blocks fuel (snd tw) (idle_child_runs_forever _ _ Hc)) in H.
  discriminate H.
Qed.

(** ** Mapped regions stay mapped *)

Lemma keeps_memory_bind {A B} (m : M World A) (f : A -> M World B) :
  keeps_memory m -> (forall a, keeps_memory (f a)) -> keeps_memory (bind m f).
Proof.
  intros Hm Hf w r w' a H Ha. unfold bind in H.
  destruct (m w) as [[[x | e |] w1] |] eqn:E; try discriminate.
  - eapply Hf; [exact H |]. eapply Hm; eauto.
  - inversion H. subst. eapply Hm; eauto.
  - inversion H. subst. eapply Hm; eauto.
Qed.

Lemma keeps_memory_pure {A} (o : outcome A) : keeps_memory (lift o).
Proof. intros w r w' a H Ha. unfold lift in H. inversion H. now subst. Qed.

Lemma keeps_memory_at_index (v : list string) (i : nat) : keeps_memory (at_index v i).
Proof.
  intros w r w' a H Ha. unfold at_index, ret, fault in H.
  destruct (v !! i); inversion H; now subst.
Qed.

Lemma keeps_memory_set_names (f : gmap string ShmObject -> gmap string ShmObject) :
  keeps_memory (modify (set_names f)).
Proof. intros w r w' a H Ha. unfold modify in H. inversion H. now subst. Qed.

Lemma keeps_memory_ipc_ReadSharedMemory (name : string) (n : nat) :
  keeps_memory (ipc_ReadSharedMemory name n).
Proof.
  intros w r w' a H Ha. unfold ipc_ReadSharedMemory in H.
  destruct (names w !! name) as [[items | b] |]; inversion H; now subst.
Qed.

Lemma keeps_memory_bi_open_only (name : string) : keeps_memory (bi_open_only name).
Proof.
  intros w r w' a H Ha. unfold bi_open_only in H.
  destruct (names w !! name) as [[items | b] |]; inversion H; now subst.
Qed.

Lemma keeps_memory_load (b : nat) : keeps_memory (load b).
Proof.
  intros w r w' a H Ha. unfold load in H.
  destruct (memory w !! b); inversion H; now subst.
Qed.

Lemma keeps_memory_store (b : nat) (ms : MountStatus) : keeps_memory (store b ms).
Proof.
  intros w r w' a H Ha. unfold store, modify in H. inversion H. subst. simpl.
  apply lookup_insert_is_Some. destruct (decide (b = a)); auto.
Qed.

Lemma keeps_memory_wait_unmount (mutex_free : bool) (b : nat) :
  keeps_memory (wait_unmount mutex_free b).
Proof.
  intros w r w' a H Ha. unfold wait_unmount in H.
  destruct (mutex_free && unmount_at b w); inversion H; now subst.
Qed.

Lemma keeps_memory_scoped_lock (mutex_free : bool) : keeps_memory (scoped_lock mutex_free).
Proof.
  intros w r w' a H Ha. unfold scoped_lock in H.
  destruct mutex_free; inversion H; now subst.
Qed.

Lemma keeps_memory_get : keeps_memory get.
Proof. intros w r w' a H Ha. unfold get in H. inversion H. now subst. Qed.

Create HintDb keeps_memory.
#[local] Hint Resolve keeps_memory_pure keeps_memory_at_index keeps_memory_set_names
  keeps_memory_ipc_ReadSharedMemory keeps_memory_bi_open_only keeps_memory_load
  keeps_memory_store keeps_memory_wait_unmount keeps_memory_scoped_lock
  keeps_memory_get : keeps_memory.

Ltac keeps_memory_steps :=
  repeat first
    [ apply keeps_memory_bind; [| intros ?]
    | solve [auto with keeps_memory] ].

Lemma keeps_memory_ReadAndRemoveInitialSharedMemory (name : string) (o : Options) :
  keeps_memory (ReadAndRemoveInitialSharedMemory name o).
Proof.
  unfold ReadAndRemoveInitialSharedMemory, ipc_RemoveSharedMemory. keeps_memory_steps.
  apply (keeps_memory_pure (Ret _)).
Qed.

Lemma keeps_memory_DoNotifyMountStatus_signal (mutex_free : bool) (name : string) (b : bool) :
  keeps_memory (DoNotifyMountStatus_signal mutex_free name b).
Proof.
  unfold DoNotifyMountStatus_signal. keeps_memory_steps.
  apply (keeps_memory_pure (Ret _)).
Qed.

Lemma keeps_memory_DoNotifyMountStatus (mutex_free : bool) (name : string) (b : bool) :
  keeps_memory (DoNotifyMountStatus mutex_free name b).
Proof.
  unfold DoNotifyMountStatus.
  apply keeps_memory_bind; [apply keeps_memory_DoNotifyMountStatus_signal |].
  intros ?. destruct b.
  - apply keeps_memory_bind; [apply keeps_memory_get |].
    intros ?. apply (keeps_memory_pure (Ret _)).
  - apply (keeps_memory_pure (Ret _)).
Qed.

Lemma keeps_memory_NotifyUnmounted (mutex_free : bool) (name : string) :
  keeps_memory (NotifyUnmounted mutex_free name).
Proof. apply keeps_memory_DoNotifyMountStatus. Qed.

Lemma child_after_memory {A} (m : M World A) (p : Process) (w : World) (a : nat) :
  keeps_memory m ->
  is_Some (memory w !! a) -> is_Some (memory (child_after p (m w) w) !! a).
Proof.
  intros Hm Ha. unfold child_after.
  destruct (m w) as [[[x | e |] w1] |] eqn:E; simpl; try assumption;
    eapply Hm; eauto.
Qed.

Lemma child_step_memory (mutex_free : bool) (w : World) (a : nat) :
  is_Some (memory w !! a) -> is_Some (memory (child_step mutex_free w) !! a).
Proof.
  intros Ha. unfold child_step.
  destruct (child w) as [[args [| act rest] []] |]; try assumption.
  destruct act; try assumption.
  - apply child_after_memory; [apply keeps_memory_ReadAndRemoveInitialSharedMemory | easy].
  - apply child_after_memory; [apply keeps_memory_DoNotifyMountStatus_signal | easy].
  - apply child_after_memory; [| easy]. keeps_memory_steps.
  - apply child_after_memory; [apply keeps_memory_NotifyUnmounted | easy].
Qed.

Lemma tick_memory (w : World) (a : nat) :
  is_Some (memory w !! a) -> is_Some (memory (tick w) !! a).
Proof. apply child_step_memory. Qed.

Lemma timed_wait_memory (seconds : nat) (pred : World -> bool) (a : nat) :
  forall w ok w',
    timed_wait seconds pred w = (ok, w') ->
    is_Some (memory w !! a) -> is_Some (memory w' !! a).
Proof.
  induction seconds as [|n IH]; intros w ok w'; unfold timed_wait; fold timed_wait;
    destruct (pred w); intros H Ha; try (inversion H; now subst).
  eapply IH; [exact H |]. now apply tick_memory.
Qed.

(** ** The constructor *)

Lemma CreateInitialSharedMemory_object
    (options : Options) (l l' : Launcher) (w w' : World) (r : outcome unit) :
  CreateInitialSharedMemory options (l, w) = Some (r, (l', w')) ->
  l' = l /\ memory w' = memory w /\ child w' = child w.
Proof.
  unfold CreateInitialSharedMemory, bind, lift, this, in_world, ipc_CreateSharedMemory.
  destruct (Identity_string (unique_id options)); simpl;
    try (intros H; inversion H; now subst).
  destruct (Identity_string (root_parent_id options)); simpl;
    try (intros H; inversion H; now subst).
  destruct (names w !! initial_shared_memory_name_ l); intros H; inversion H; now subst.
Qed.

Lemma CreateMountStatusSharedMemory_object
    (l l' : Launcher) (w w' : World) (r : outcome unit) :
  CreateMountStatusSharedMemory (l, w) = Some (r, (l', w')) ->
  drive_process_ l' = drive_process_ l /\ child w' = child w /\
  (r = Ret tt ->
   exists a, mount_status_ l' = Some a /\
             memory w' !! a = Some (mkMountStatus false false)).
Proof.
  unfold CreateMountStatusSharedMemory, bind, this, in_world, bi_create_only, store,
    update_this, modify. simpl.
  destruct (names w !! _); intros H; inversion H; subst; simpl.
  - repeat split. discriminate.
  - repeat split. intros _. eexists. split; [reflexivity |]. apply lookup_insert_eq.
Qed.

Lemma StartDriveProcess_unresolved
    (G : string -> fs_path) (options : Options) (s : Launcher * World) (e : error) :
  GetDriveExecutablePath G (drive_type options) = Throw e ->
  StartDriveProcess G options s = Some (Throw e, s).
Proof.
  intros H. unfold StartDriveProcess, bind, this, lift. now rewrite H.
Qed.

Lemma StartDriveProcess_Ret_inv
    (G : string -> fs_path) (options : Options) (l l' : Launcher) (w w' : World) :
  StartDriveProcess G options (l, w) = Some (Ret tt, (l', w')) ->
  l' = set_drive_process_ (Some ChildHandle) l /\ memory w' = memory w.
Proof.
  unfold StartDriveProcess, bind, this, lift, in_world, bp_execute, update_this, modify,
    throw, ret.
  destruct (GetDriveExecutablePath G (drive_type options)); simpl; try discriminate.
  destruct (exes w !! path_string a); simpl; intros H; inversion H; now subst.
Qed.

(** After the spawn the region is mapped, its flags are still clear, and
    the handle is set. *)
Lemma construct_until_spawned_inv
    (G : string -> fs_path) (options : Options) (l l1 : Launcher) (w w1 : World) :
  construct_until_spawned G options (l, w) = Some (Ret tt, (l1, w1)) ->
  exists a,
    mount_status_ l1 = Some a /\
    drive_process_ l1 = Some ChildHandle /\
    memory w1 !! a = Some (mkMountStatus false false).
Proof.
  unfold construct_until_spawned. intros H.
  apply bind_Ret_inv in H as ([] & [lA wA] & HA & H).
  apply bind_Ret_inv in H as ([] & [lB wB] & HB & H).
  apply CreateMountStatusSharedMemory_object in HB as (_ & _ & HB).
  destruct (HB eq_refl) as (a & Ha & Hm).
  apply StartDriveProcess_Ret_inv in H as [-> Hmem].
  exists a. simpl. rewrite Hmem. auto.
Qed.

Lemma Launcher_ctor_spawned
    (G : string -> fs_path) (win32 : bool) (fuel : nat) (options : Options)
    (random_name : string) (w : World) (s1 : Launcher * World) :
  construct_until_spawned G options (initial_Launcher win32 options random_name, w)
    = Some (Ret tt, s1) ->
  Launcher_ctor G win32 fuel options random_name w =
    match on_scope_exit (try_catch_log (StopDriveProcess fuel)) WaitForDriveToMount s1 with
    | None => None
    | Some (Ret _, (self', w')) => Some (Ret self', w')
    | Some (Throw e, (_, w')) => Some (Throw e, w')
    | Some (Fault, (_, w')) => Some (Fault, w')
    end.
Proof.
  unfold construct_until_spawned. intros H.
  apply bind_Ret_inv in H as ([] & sA & HA & H).
  apply bind_Ret_inv in H as ([] & sB & HB & H).
  unfold Launcher_ctor, on_scope_exit. fold (initial_Launcher win32 options random_name).
  erewrite bind_Ret by exact HA.
  erewrite bind_Ret by exact HB.
  erewrite bind_Ret by exact H.
  reflexivity.
Qed.

Lemma WaitForDriveToMount_timeout (l : Launcher) (w w2 : World) (a : nat) (ms : MountStatus) :
  mount_status_ l = Some a ->
  memory w !! a = Some ms ->
  timed_wait kTimeoutSeconds (mounted_at a) w = (false, w2) ->
  WaitForDriveToMount (l, w) = Some (Throw DriveErrors_failed_to_mount, (l, w2)).
Proof.
  intros Ha Hm Ht. unfold WaitForDriveToMount.
  assert (Hderef : deref_mount_status (l, w) = Some (Ret a, (l, w))).
  { unfold deref_mount_status, bind, this, in_world, load. simpl.
    rewrite Ha. simpl. now rewrite Hm. }
  erewrite bind_Ret by exact Hderef.
  erewrite bind_Ret by (unfold in_world; simpl; rewrite Ht; reflexivity).
  reflexivity.
Qed.

(** A construction whose mount wait times out: what remains is the wait
    for the child's exit inside the unwinding. *)
Lemma Launcher_ctor_mount_timeout
    (G : string -> fs_path) (win32 : bool) (fuel : nat) (options : Options)
    (random_name : string) (w w1 w2 : World) (l1 : Launcher) (a : nat) :
  construct_until_spawned G options (initial_Launcher win32 options random_name, w)
    = Some (Ret tt, (l1, w1)) ->
  mount_status_ l1 = Some a ->
  timed_wait kTimeoutSeconds (mounted_at a) w1 = (false, w2) ->
  StopDriveProcess fuel (l1, w2) =
    match bp_wait_for_exit fuel (unmount_requested a w2) with
    | Some (_, w3) => Some (Ret tt, (set_drive_process_ None l1, w3))
    | None => None
    end /\
  Launcher_ctor G win32 fuel options random_name w =
    match bp_wait_for_exit fuel (unmount_requested a w2) with
    | Some (_, w3) => Some (Throw DriveErrors_failed_to_mount, w3)
    | None => None
    end.
Proof.
  intros Hpre Ha Ht.
  destruct (construct_until_spawned_inv _ _ _ _ _ _ Hpre) as (a' & Ha' & Hh & Hm).
  assert (a' = a) as -> by congruence.
  assert (Hm2 : is_Some (memory w2 !! a)).
  { eapply timed_wait_memory; [exact Ht |]. rewrite Hm. eauto. }
  destruct Hm2 as [ms2 Hm2].
  assert (Hclear : mounted_at a w2 = false) by (eapply timed_wait_false; exact Ht).
  assert (Hnow : timed_wait kTimeoutSeconds (fun w => negb (mounted_at a w))
                   (unmount_requested a w2) = (true, unmount_requested a w2)).
  { apply timed_wait_now. unfold unmount_requested, mounted_at at 1. simpl.
    rewrite lookup_insert_eq. simpl. now rewrite Hclear. }
  assert (Hstop : StopDriveProcess fuel (l1, w2) =
                  match bp_wait_for_exit fuel (unmount_requested a w2) with
                  | Some (_, w3) => Some (Ret tt, (set_drive_process_ None l1, w3))
                  | None => None
                  end).
  { rewrite (StopDriveProcess_live fuel l1 w2 ChildHandle a ms2 Hh Ha Hm2), Hnow.
    reflexivity. }
  split; [exact Hstop |].
  rewrite (Launcher_ctor_spawned _ _ _ _ _ _ _ Hpre).
  unfold on_scope_exit, try_catch_log.
  rewrite (WaitForDriveToMount_timeout l1 w1 w2 a _ Ha Hm Ht), Hstop.
  destruct (bp_wait_for_exit fuel (unmount_requested a w2)) as [[r w3] |]; reflexivity.
Qed.

(** C2 at a failing input: the child is spawned and then neither mounts nor
    exits.  The mounted flag is not observed within the ten seconds and
    WaitForDriveToMount throws failed_to_mount; the unwinding then runs
    StopDriveProcess, which raises the unmount flag, finds the mounted flag
    clear, so that its own ten-second wait is over at once, and waits for
    the child's exit with no bound.  The child runs on for ever, and the
    constructor does not fail with failed_to_mount: it never returns. *)
Theorem construction_hangs_for_hung_child :
  let l1 := fst (Scenario.spawned Scenario.hung) in
  let w1 := snd (Scenario.spawned Scenario.hung) in
  let w2 := Scenario.mount_wait_over Scenario.hung in
  child_running w1 = true /\
  timed_wait kTimeoutSeconds (mounted_at 0) w1 = (false, w2) /\
  WaitForDriveToMount (l1, w1) = Some (Throw DriveErrors_failed_to_mount, (l1, w2)) /\
  (forall n, child_running (later_locked n (unmount_requested 0 w2)) = true) /\
  ~ (exists fuel r,
        Launcher_ctor Scenario.exe_dir false fuel Scenario.options Scenario.name
          (Scenario.machine Scenario.hung) = Some r).
Proof.
  intros l1 w1 w2.
  assert (Hc : child (unmount_requested 0 w2) =
               Some (mkProcess ["/opt/maidsafe/local_drive";
                                "--shared_memory " +:+ Scenario.name] [] Running))
    by (vm_compute; reflexivity).
  split; [vm_compute; reflexivity |]. split; [vm_compute; reflexivity |].
  split; [vm_compute; reflexivity |].
  split; [exact (idle_child_runs_forever _ _ Hc) |].
  intros (fuel & r & H).
  destruct (Launcher_ctor_mount_timeout Scenario.exe_dir false fuel Scenario.options
              Scenario.name (Scenario.machine Scenario.hung) w1 w2 l1 0%nat) as [_ Hctor];
    try (vm_compute; reflexivity).
  rewrite Hctor in H.
  rewrite (bp_wait_for_exit_blocks fuel _ (idle_child_runs_forever _ _ Hc)) in H.
  discriminate H.
Qed.

(** C1 at a failing input: the child dies before reading its parameters, the
    constructor fails with failed_to_mount, no child is left running, and
    both the Bootstrap Segment name and the Mount-Status Region name are
    still registered; the destructor, which would have removed them, never
    runs for an object whose constructor threw. *)
Theorem failed_construction_leaks_names :
  let r := Launcher_ctor Scenario.exe_dir false 0 Scenario.options Scenario.name
             (Scenario.machine Scenario.crashing) in
  let w' := state_after r (Scenario.machine Scenario.crashing) in
  r = Some (Throw DriveErrors_failed_to_mount, w') /\
  child_running w' = false /\
  names w' !! Scenario.name
    = Some (Segment (bootstrap_fields Scenario.options
                       (string_of_list_ascii (List.repeat "u"%char 64))
                       (string_of_list_ascii (List.repeat "r"%char 64)))) /\
  names w' !! GetMountStatusSharedMemoryName Scenario.name = Some (Region 0%nat).
Proof. vm_compute. repeat split; reflexivity. Qed.

(** C10. With a null process handle StopDriveProcess returns at once,
    leaving the object and the world untouched, whether or not
    [mount_status_] is null; hence a construction that fails while creating
    the Bootstrap Segment, while creating the Mount-Status Region or while
    resolving the executable propagates its exception with the world as the
    failing step left it, and never faults. *)
Theorem unwind_before_spawn_is_safe
    (G : string -> fs_path) (win32 : bool) (fuel : nat) (options : Options)
    (random_name : string) (w : World) :
  (forall l w0,
      drive_process_ l = None -> StopDriveProcess fuel (l, w0) = Some (Ret tt, (l, w0))) /\
  (forall e w',
      fails_before_spawn G win32 options random_name w e w' ->
      Launcher_ctor G win32 fuel options random_name w = Some (Throw e, w')).
Proof.
  split; [intros l w0; apply StopDriveProcess_null |].
  intros e w' Hfail.
  unfold Launcher_ctor, on_scope_exit, try_catch_log.
  fold (initial_Launcher win32 options random_name).
  destruct Hfail as [l HA | [lA wA] l HA HB | [lA wA] l HA HB HC].
  - destruct (CreateInitialSharedMemory_object _ _ _ _ _ _ HA) as (-> & _ & _).
    erewrite bind_Throw by exact HA.
    now rewrite StopDriveProcess_null.
  - destruct (CreateInitialSharedMemory_object _ _ _ _ _ _ HA) as (-> & _ & _).
    destruct (CreateMountStatusSharedMemory_object _ _ _ _ _ HB) as (Hh & _ & _).
    erewrite bind_Ret by exact HA.
    erewrite bind_Throw by exact HB.
    now rewrite StopDriveProcess_null.
  - destruct (CreateInitialSharedMemory_object _ _ _ _ _ _ HA) as (-> & _ & _).
    destruct (CreateMountStatusSharedMemory_object _ _ _ _ _ HB) as (Hh & _ & _).
    erewrite bind_Ret by exact HA.
    erewrite bind_Ret by exact HB.
    erewrite bind_Throw by (apply StartDriveProcess_unresolved; exact HC).
    now rewrite StopDriveProcess_null.
Qed.

Lemma unwind_before_spawn_is_safe_witness :
  StopDriveProcess 0 (Scenario.fresh_launcher, Scenario.occupied)
    = Some (Ret tt, (Scenario.fresh_launcher, Scenario.occupied)) /\
  Launcher_ctor Scenario.exe_dir false 0 Scenario.options Scenario.name Scenario.occupied
    = Some (Throw ResourceUnavailable, Scenario.occupied) /\
  Launcher_ctor Scenario.exe_dir false 0 Scenario.options_unknown_drive Scenario.name
    (Scenario.machine [])
    = Some (Throw CommonErrors_invalid_parameter, snd Scenario.region_created').
Proof.
  split; [| split].
  - apply (proj1 (unwind_before_spawn_is_safe Scenario.exe_dir false 0 Scenario.options
                    Scenario.name Scenario.occupied)).
    reflexivity.
  - apply (proj2 (unwind_before_spawn_is_safe Scenario.exe_dir false 0 Scenario.options
                    Scenario.name Scenario.occupied)).
    apply (fails_creating_bootstrap _ _ _ _ _ _ _ Scenario.fresh_launcher).
    vm_compute. reflexivity.
  - apply (proj2 (unwind_before_spawn_is_safe Scenario.exe_dir false 0
                    Scenario.options_unknown_drive Scenario.name (Scenario.machine []))).
    apply (fails_resolving_executable _ _ _ _ _ _ _ Scenario.bootstrap_written'
             (fst Scenario.region_created')).
    + vm_compute. reflexivity.
    + vm_compute. reflexivity.
    + vm_compute. reflexivity.
Defined.

(** * Further properties *)

(** ** The child-side reader *)

Ltac reader_step :=
  match goal with
  | |- context [match ?v !! ?i with _ => _ end] => destruct (v !! i) eqn:?
  | |- context [(String.length ?a =? 64)%nat] => destruct (String.length a =? 64)%nat eqn:?
  | |- context [stoi ?a] => destruct (stoi a) eqn:?
  end.

(** Either the read succeeds and its only effect on the world is the removal
    of the name, or it fails and has no effect at all. *)
Lemma ReadAndRemoveInitialSharedMemory_cases
    (name : string) (o : Options) (w w' : World) (r : outcome Options) :
  ReadAndRemoveInitialSharedMemory name o w = Some (r, w') ->
  (exists o' items,
      r = Ret o' /\ w' = set_names (delete name) w /\
      names w !! name = Some (Segment items) /\
      drive_type o' = drive_type o /\
      drive_logging_args o' = drive_logging_args o) \/
  (w' = w /\ forall o', r <> Ret o').
Proof.
  unfold ReadAndRemoveInitialSharedMemory, bind, ipc_ReadSharedMemory, at_index, lift,
    Identity_ctor, ipc_RemoveSharedMemory, modify, ret, fault.
  destruct (names w !! name) as [[items | b] |] eqn:E;
    try (intros H; inversion H; subst; right; split; [reflexivity | discriminate]).
  repeat (reader_step;
          try (intros H; inversion H; subst; right; split; [reflexivity | discriminate])).
  intros H. inversion H. subst. left. eexists _, items. repeat split.
Qed.

(** X1. The Bootstrap Segment is read once: after a successful
    ReadAndRemoveInitialSharedMemory the name is no longer registered and
    any further read of it throws NotFound and changes nothing. *)
Theorem bootstrap_is_read_once
    (name : string) (o o' o2 : Options) (w w' : World) :
  ReadAndRemoveInitialSharedMemory name o w = Some (Ret o', w') ->
  names w' !! name = None /\
  ReadAndRemoveInitialSharedMemory name o2 w' = Some (Throw NotFound, w').
Proof.
  intros H.
  destruct (ReadAndRemoveInitialSharedMemory_cases _ _ _ _ _ H)
    as [(o1 & items & _ & -> & _) | [_ Hne]]; [| now destruct (Hne o')].
  assert (Hgone : names (set_names (delete name) w) !! name = None)
    by (simpl; apply lookup_delete_eq).
  split; [exact Hgone |].
  unfold ReadAndRemoveInitialSharedMemory, bind, ipc_ReadSharedMemory.
  now rewrite Hgone.
Qed.

Lemma bootstrap_is_read_once_witness :
  let w' := set_names (delete "boot") Cases.with_segment in
  names w' !! "boot" = None /\
  ReadAndRemoveInitialSharedMemory "boot" Cases.caller_options w'
    = Some (Throw NotFound, w').
Proof.
  intros w'.
  apply (bootstrap_is_read_once "boot" Cases.caller_options
           (mkOptions (Path "/tmp/x") (Path "/tmp/y") (Identity_holding Cases.id_u)
              (Identity_holding Cases.id_r) (Path "MyDrive") true kNetworkConsole
              "--log_folder /tmp/log" (GetMountStatusSharedMemoryName "boot"))
           Cases.caller_options Cases.with_segment w').
  reflexivity.
Defined.

(** The two embeddings of the reader agree: the options a normal return
    hands back are the caller's options as the by-reference call left them,
    and outcome and world are the same in every case. *)
Lemma ReadAndRemoveInitialSharedMemory_ref_value (name : string) (o : Options) (w : World) :
  ReadAndRemoveInitialSharedMemory name o w =
    match ReadAndRemoveInitialSharedMemory_ref name (o, w) with
    | Some (Ret _, (o', w')) => Some (Ret o', w')
    | Some (Throw e, (_, w')) => Some (Throw e, w')
    | Some (Fault, (_, w')) => Some (Fault, w')
    | None => None
    end.
Proof.
  unfold ReadAndRemoveInitialSharedMemory, ReadAndRemoveInitialSharedMemory_ref, bind,
    in_world_of, assign, ipc_ReadSharedMemory, at_index, lift, Identity_ctor,
    ipc_RemoveSharedMemory, modify, ret, fault.
  cbn [fst snd].
  destruct (names w !! name) as [[items | b] |] eqn:E; try reflexivity.
  repeat (reader_step; try reflexivity).
Qed.

(** By reference: either the read succeeds, or it fails with the world as
    it was and with the four fields it assigns last, or never, unchanged. *)
Lemma ReadAndRemoveInitialSharedMemory_ref_cases
    (name : string) (o o' : Options) (w w' : World) (r : outcome unit) :
  ReadAndRemoveInitialSharedMemory_ref name (o, w) = Some (r, (o', w')) ->
  (r = Ret tt /\ w' = set_names (delete name) w /\
   mount_status_shared_object_name o' = GetMountStatusSharedMemoryName name) \/
  (r <> Ret tt /\ w' = w /\
   create_store o' = create_store o /\ drive_type o' = drive_type o /\
   drive_logging_args o' = drive_logging_args o /\
   mount_status_shared_object_name o' = mount_status_shared_object_name o).
Proof.
  unfold ReadAndRemoveInitialSharedMemory_ref, bind,
    in_world_of, assign, ipc_ReadSharedMemory, at_index, lift, Identity_ctor,
    ipc_RemoveSharedMemory, modify, ret, fault.
  cbn [fst snd].
  destruct (names w !! name) as [[items | b] |] eqn:E;
    try (intros H; inversion H; subst; right; repeat split; discriminate).
  repeat (reader_step;
          try (intros H; inversion H; subst; right; repeat split; discriminate)).
  intros H. inversion H. subst. left. repeat split.
Qed.

Lemma stoi_no_fault (str : string) : stoi str <> Fault.
Proof.
  unfold stoi.
  destruct (match skip_spaces str with
            | String "-"%char r => (true, r)
            | String "+"%char r => (false, r)
            | _ => (false, skip_spaces str)
            end) as [negative body].
  destruct (parse_digits 0 0 body) as [v [| n]]; [discriminate |].
  destruct (_ && _); discriminate.
Qed.

(** X2. A read that fails removes nothing, but has written what came before
    the failure.  When ReadAndRemoveInitialSharedMemory, its options taken
    by reference, does not return normally, the world is left as it was, so
    a segment that was there is still registered, and the create-store
    flag, the drive type, the logging arguments and the region name of the
    caller's options are as before.  On a missing name the failure is
    NotFound and the options are untouched.  On a segment of six fields the
    options hold every assignment made before the failing line: the two
    paths when the constructor of the unique id throws, the unique id as
    well when that of the root-parent id throws, and all five fields before
    the flag when the ids are accepted, in which case the failure is the
    exception of std::stoi on the flag. *)
Theorem failed_read_keeps_segment
    (name : string) (o o' : Options) (w w' : World) (r : outcome unit) :
  ReadAndRemoveInitialSharedMemory_ref name (o, w) = Some (r, (o', w')) ->
  r <> Ret tt ->
  w' = w /\
  create_store o' = create_store o /\
  drive_type o' = drive_type o /\
  drive_logging_args o' = drive_logging_args o /\
  mount_status_shared_object_name o' = mount_status_shared_object_name o /\
  (names w !! name = None -> r = Throw NotFound /\ o' = o) /\
  (forall a0 a1 a2 a3 a4 a5,
      names w !! name = Some (Segment [a0; a1; a2; a3; a4; a5]) ->
      let o2 := set_storage_path (Path a1) (set_mount_path (Path a0) o) in
      (forall e, Identity_ctor a2 = Throw e -> r = Throw e /\ o' = o2) /\
      (forall i2 e,
          Identity_ctor a2 = Ret i2 -> Identity_ctor a3 = Throw e ->
          r = Throw e /\ o' = set_unique_id i2 o2) /\
      (forall i2 i3,
          Identity_ctor a2 = Ret i2 -> Identity_ctor a3 = Ret i3 ->
          exists e,
            stoi a5 = Throw e /\ r = Throw e /\
            o' = set_drive_name (Path a4) (set_root_parent_id i3 (set_unique_id i2 o2)))).
Proof.
  intros H Hfail.
  destruct (ReadAndRemoveInitialSharedMemory_ref_cases _ _ _ _ _ _ H)
    as [(-> & _) | (_ & -> & Hc & Hd & Hl & Hn)]; [now destruct Hfail |].
  do 5 (split; [assumption || reflexivity |]).
  unfold ReadAndRemoveInitialSharedMemory_ref, bind, in_world_of, ipc_ReadSharedMemory in H.
  cbn [fst snd] in H.
  split.
  - intros Hnone. rewrite Hnone in H. inversion H. now subst.
  - intros a0 a1 a2 a3 a4 a5 Hseg o2. rewrite Hseg in H.
    unfold assign, at_index, lift, modify, ret, ipc_RemoveSharedMemory in H.
    cbn in H.
    split; [| split].
    + intros e He. rewrite He in H. inversion H. now subst.
    + intros i2 e H2 H3. rewrite H2, H3 in H. inversion H. now subst.
    + intros i2 i3 H2 H3. rewrite H2, H3 in H.
      destruct (stoi a5) as [n | e |] eqn:H5.
      * inversion H. subst. now destruct Hfail.
      * exists e. inversion H. now subst.
      * now destruct (stoi_no_fault a5).
Qed.

Lemma failed_read_keeps_segment_witness :
  let o := Cases.caller_options in
  let o' := set_drive_name (Path "MyDrive")
              (set_root_parent_id (Identity_holding Cases.id_r)
                 (set_unique_id (Identity_holding Cases.id_u)
                    (set_storage_path (Path "/tmp/y") (set_mount_path (Path "/tmp/x") o)))) in
  ReadAndRemoveInitialSharedMemory_ref "boot" (o, Cases.with_bad_flag)
    = Some (Throw std_invalid_argument, (o', Cases.with_bad_flag)) /\
  names Cases.with_bad_flag !! "boot"
    = Some (Segment ["/tmp/x"; "/tmp/y"; Cases.id_u; Cases.id_r; "MyDrive"; "yes"]) /\
  create_store o' = create_store o /\
  mount_status_shared_object_name o' = mount_status_shared_object_name o.
Proof.
  intros o o'.
  assert (H : ReadAndRemoveInitialSharedMemory_ref "boot" (o, Cases.with_bad_flag)
              = Some (Throw std_invalid_argument, (o', Cases.with_bad_flag)))
    by (vm_compute; reflexivity).
  destruct (failed_read_keeps_segment "boot" o o' Cases.with_bad_flag Cases.with_bad_flag
              (Throw std_invalid_argument) H ltac:(discriminate))
    as (_ & Hc & _ & _ & Hn & _).
  split; [exact H |]. split; [reflexivity |]. split; assumption.
Defined.

(** X3. The segment carries six fields only: a successful read leaves the
    drive type and the logging arguments of the caller's options as they
    were, and sets the Mount-Status Region name to the one derived from the
    segment name. *)
Theorem read_keeps_untransported_fields
    (name : string) (o o' : Options) (w w' : World) :
  ReadAndRemoveInitialSharedMemory name o w = Some (Ret o', w') ->
  drive_type o' = drive_type o /\
  drive_logging_args o' = drive_logging_args o /\
  mount_status_shared_object_name o' = GetMountStatusSharedMemoryName name.
Proof.
  intros H.
  pose proof (ReadAndRemoveInitialSharedMemory_name _ _ _ _ _ H) as Hname.
  destruct (ReadAndRemoveInitialSharedMemory_cases _ _ _ _ _ H)
    as [(o1 & items & E & _ & _ & Hd & Hl) | [_ Hne]]; [| now destruct (Hne o')].
  inversion E. subst o1. auto.
Qed.

Lemma read_keeps_untransported_fields_witness :
  let o' := value_after
              (ReadAndRemoveInitialSharedMemory "boot" Cases.caller_options
                 Cases.with_segment) Cases.caller_options in
  drive_type o' = kNetworkConsole /\
  drive_logging_args o' = "--log_folder /tmp/log" /\
  mount_status_shared_object_name o' = GetMountStatusSharedMemoryName "boot".
Proof.
  intros o'.
  apply (read_keeps_untransported_fields "boot" Cases.caller_options o'
           Cases.with_segment (set_names (delete "boot") Cases.with_segment)).
  reflexivity.
Defined.

(** ** The notification helpers *)

Lemma DoNotifyMountStatus_signal_inv
    (mutex_free : bool) (name : string) (b : bool) (w w' : World) (r : outcome nat) :
  DoNotifyMountStatus_signal mutex_free name b w = Some (r, w') ->
  (exists a ms,
      r = Ret a /\ names w !! name = Some (Region a) /\ memory w !! a = Some ms /\
      w' = set_memory (insert a (mkMountStatus b (unmount ms))) w) \/
  (w' = w /\ (forall a, r <> Ret a) /\ (names w !! name = None -> r = Throw NotFound)).
Proof.
  unfold DoNotifyMountStatus_signal, bind, bi_open_only, scoped_lock, load, store, modify, ret.
  destruct (names w !! name) as [[items | a] |] eqn:E.
  - intros H. inversion H. subst. right. repeat split; discriminate.
  - destruct mutex_free; [| discriminate].
    destruct (memory w !! a) as [ms |] eqn:Em; intros H; inversion H; subst.
    + left. eauto 10.
    + right. repeat split; discriminate.
  - intros H. inversion H. subst. right. repeat split; discriminate.
Qed.

(** The call blocks exactly on a registered region whose mutex is taken. *)
Lemma DoNotifyMountStatus_signal_blocks
    (mutex_free : bool) (name : string) (b : bool) (w : World) :
  DoNotifyMountStatus_signal mutex_free name b w = None <->
  mutex_free = false /\ exists a, names w !! name = Some (Region a).
Proof.
  unfold DoNotifyMountStatus_signal, bind, bi_open_only, scoped_lock, load, store, modify, ret.
  destruct (names w !! name) as [[items | a] |] eqn:E.
  - split; [discriminate | intros (_ & a & Ha); discriminate].
  - destruct mutex_free.
    + split; [| intros (Hf & _); discriminate].
      destruct (memory w !! a); discriminate.
    + split; eauto.
  - split; [discriminate | intros (_ & a & Ha); discriminate].
Qed.

Lemma DoNotifyMountStatus_blocks
    (mutex_free : bool) (name : string) (b : bool) (w : World) :
  DoNotifyMountStatus mutex_free name b w = None <->
  mutex_free = false /\ exists a, names w !! name = Some (Region a).
Proof.
  rewrite <- DoNotifyMountStatus_signal_blocks with (b := b).
  unfold DoNotifyMountStatus, bind.
  destruct (DoNotifyMountStatus_signal mutex_free name b w) as [[[a | e |] w1] |];
    split; try discriminate; try reflexivity.
  all: destruct b; discriminate.
Qed.

(** X4. NotifyUnmounted takes the mutex of the region and changes one flag:
    on a name that is not registered it throws NotFound and changes nothing;
    it blocks exactly when the name denotes a region whose mutex the
    launcher holds; and when it goes on, it has returned for good, the name
    denotes a region whose mounted flag is now false, and the unmount flag
    of every region, every other region and the registered names are as
    before. *)
Theorem NotifyUnmounted_effect (mutex_free : bool) (name : string) (w : World) :
  (names w !! name = None ->
   NotifyUnmounted mutex_free name w = Some (Throw NotFound, w)) /\
  (NotifyUnmounted mutex_free name w = None <->
   mutex_free = false /\ exists a, names w !! name = Some (Region a)) /\
  (forall c w',
      NotifyUnmounted mutex_free name w = Some (Ret c, w') ->
      mutex_free = true /\ c = Returned /\
      exists a,
        names w !! name = Some (Region a) /\
        mounted_at a w' = false /\
        (forall x, unmount_at x w' = unmount_at x w) /\
        (forall x, x <> a -> memory w' !! x = memory w !! x) /\
        names w' = names w /\ child w' = child w).
Proof.
  split; [| split; [apply DoNotifyMountStatus_blocks |]].
  - intros Hnone. unfold NotifyUnmounted, DoNotifyMountStatus, bind,
      DoNotifyMountStatus_signal, bind, bi_open_only. now rewrite Hnone.
  - intros c w' H. unfold NotifyUnmounted, DoNotifyMountStatus in H.
    apply bind_Ret_inv in H as (a & w1 & Hs & Hr).
    unfold ret in Hr. inversion Hr. subst c w1. clear Hr.
    destruct (DoNotifyMountStatus_signal_inv _ _ _ _ _ _ Hs)
      as [(a' & ms & E & Hn & Hm & ->) | (_ & Hne & _)]; [| now destruct (Hne a)].
    inversion E. subst a'.
    split.
    { destruct mutex_free; [reflexivity |].
      assert (Hb : DoNotifyMountStatus_signal false name false w = None)
        by (apply DoNotifyMountStatus_signal_blocks; eauto).
      rewrite Hb in Hs. discriminate Hs. }
    split; [reflexivity |]. exists a.
    split; [exact Hn |]. unfold mounted_at, unmount_at. simpl.
    split; [now rewrite lookup_insert_eq |].
    split.
    + intros x. destruct (decide (a = x)) as [<- | Hx].
      * now rewrite lookup_insert_eq, Hm.
      * now rewrite lookup_insert_ne.
    + split; [| split; reflexivity].
      intros x Hx. now rewrite lookup_insert_ne.
Qed.

Lemma NotifyUnmounted_effect_witness :
  NotifyUnmounted false "status" (Cases.with_region true true) = None /\
  exists a,
    names (Cases.with_region true true) !! "status" = Some (Region a) /\
    mounted_at a (set_memory (insert 0%nat (mkMountStatus false true))
                    (Cases.with_region true true)) = false.
Proof.
  split.
  - apply (proj1 (proj2 (NotifyUnmounted_effect false "status"
                           (Cases.with_region true true)))).
    split; [reflexivity |]. exists 0%nat. reflexivity.
  - destruct (NotifyUnmounted_effect true "status" (Cases.with_region true true))
      as (_ & _ & H).
    destruct (H Returned (set_memory (insert 0%nat (mkMountStatus false true))
                            (Cases.with_region true true)) eq_refl)
      as (_ & _ & a & Hn & Hm & _).
    exists a. split; assumption.
Defined.

(** X5. NotifyMountedAndWaitForUnmountRequest stores the mounted flag
    before it waits.  On a registered, mapped region the call blocks while
    the launcher holds the mutex; with the mutex free it sets the mounted
    flag, leaves the unmount flag alone and, when that flag is already
    raised, has returned, and otherwise is left waiting on the region with
    the store in place.  The wait does not end while the unmount flag is
    clear, nor while the launcher that raised it still holds the mutex; it
    ends once the flag is raised and the mutex free, with both flags set. *)
Theorem NotifyMounted_waits_for_unmount_request
    (name : string) (w : World) (a : nat) (ms : MountStatus) :
  names w !! name = Some (Region a) ->
  memory w !! a = Some ms ->
  let w1 := set_memory (insert a (mkMountStatus true (unmount ms))) w in
  NotifyMountedAndWaitForUnmountRequest false name w = None /\
  NotifyMountedAndWaitForUnmountRequest true name w
    = Some (Ret (if unmount ms then Returned else Waiting a), w1) /\
  mounted_at a w1 = true /\
  unmount_at a w1 = unmount ms /\
  (unmount ms = false ->
   wait_unmount true a w1 = None /\
   wait_unmount false a (unmount_requested a w1) = None /\
   wait_unmount true a (unmount_requested a w1) = Some (Ret tt, unmount_requested a w1) /\
   mounted_at a (unmount_requested a w1) = true /\
   unmount_at a (unmount_requested a w1) = true).
Proof.
  intros Hn Hm w1.
  assert (Hmt : mounted_at a w1 = true)
    by (unfold mounted_at, w1; simpl; now rewrite lookup_insert_eq).
  assert (Hut : unmount_at a w1 = unmount ms)
    by (unfold unmount_at, w1; simpl; now rewrite lookup_insert_eq).
  assert (Hreq : mounted_at a (unmount_requested a w1) = true /\
                 unmount_at a (unmount_requested a w1) = true).
  { unfold unmount_requested, mounted_at at 1, unmount_at at 1. simpl.
    rewrite lookup_insert_eq. simpl. now rewrite Hmt. }
  split; [apply DoNotifyMountStatus_blocks; eauto |].
  split.
  { unfold NotifyMountedAndWaitForUnmountRequest, DoNotifyMountStatus, bind,
      DoNotifyMountStatus_signal, bind, bi_open_only, scoped_lock, load, store, modify,
      get, ret.
    rewrite Hn, Hm. fold w1. now rewrite Hut. }
  split; [exact Hmt |]. split; [exact Hut |].
  intros Hu. unfold wait_unmount. rewrite Hut, Hu. destruct Hreq as [Hr1 Hr2].
  rewrite Hr2. simpl. auto.
Qed.

Lemma NotifyMounted_waits_for_unmount_request_witness :
  let w := Cases.with_region false false in
  let w1 := set_memory (insert 0%nat (mkMountStatus true false)) w in
  NotifyMountedAndWaitForUnmountRequest false "status" w = None /\
  NotifyMountedAndWaitForUnmountRequest true "status" w = Some (Ret (Waiting 0), w1) /\
  mounted_at 0 w1 = true /\
  unmount_at 0 w1 = false /\
  (false = false ->
   wait_unmount true 0 w1 = None /\
   wait_unmount false 0 (unmount_requested 0 w1) = None /\
   wait_unmount true 0 (unmount_requested 0 w1) = Some (Ret tt, unmount_requested 0 w1) /\
   mounted_at 0 (unmount_requested 0 w1) = true /\
   unmount_at 0 (unmount_requested 0 w1) = true).
Proof.
  intros w w1.
  apply (NotifyMounted_waits_for_unmount_request "status" w 0%nat
           (mkMountStatus false false)); reflexivity.
Defined.

(** ** The bounded waits *)

Lemma timed_wait_unfold (seconds : nat) (pred : World -> bool) (w : World) :
  timed_wait seconds pred w =
    if pred w then (true, w)
    else
      match seconds with
      | O => (false, w)
      | S seconds' => timed_wait seconds' pred (tick w)
      end.
Proof. destruct seconds; reflexivity. Qed.

(** The wait ends at the first second at which the predicate holds, and at
    the deadline otherwise. *)
Lemma timed_wait_spec (pred : World -> bool) (seconds : nat) :
  forall w,
    exists m,
      (m <= seconds)%nat /\
      timed_wait seconds pred w = (pred (later m w), later m w) /\
      (forall k, (k < m)%nat -> pred (later k w) = false) /\
      (pred (later m w) = false -> m = seconds).
Proof.
  induction seconds as [|n IH]; intros w; rewrite timed_wait_unfold;
    destruct (pred w) eqn:Hp.
  - exists 0%nat. simpl. rewrite Hp. repeat split; try lia; discriminate.
  - exists 0%nat. simpl. rewrite Hp. repeat split; lia.
  - exists 0%nat. simpl. rewrite Hp. repeat split; try lia; discriminate.
  - destruct (IH (tick w)) as (m & Hm & Ht & Hbefore & Hlast).
    exists (S m). rewrite later_S. split; [lia |]. split; [exact Ht |]. split.
    + intros [|k] Hk; [exact Hp |]. rewrite later_S. apply Hbefore. lia.
    + intros H. specialize (Hlast H). lia.
Qed.

(** X6. WaitForDriveToMount waits at most ten seconds: with the region
    mapped it always returns, at the first second at which the mounted flag
    is set (without error) or after exactly ten seconds with the flag still
    clear (throwing failed_to_mount); the object is not changed. *)
Theorem WaitForDriveToMount_bounded
    (l : Launcher) (w : World) (a : nat) (ms : MountStatus) :
  mount_status_ l = Some a ->
  memory w !! a = Some ms ->
  exists m,
    (m <= 10)%nat /\
    WaitForDriveToMount (l, w) =
      Some (if mounted_at a (later m w) then Ret tt
            else Throw DriveErrors_failed_to_mount,
            (l, later m w)) /\
    (forall k, (k < m)%nat -> mounted_at a (later k w) = false) /\
    (mounted_at a (later m w) = false -> m = 10%nat).
Proof.
  intros Ha Hm.
  destruct (timed_wait_spec (mounted_at a) kTimeoutSeconds w)
    as (m & Hle & Ht & Hbefore & Hlast).
  exists m. split; [exact Hle |]. split; [| split; assumption].
  assert (Hderef : deref_mount_status (l, w) = Some (Ret a, (l, w))).
  { unfold deref_mount_status, bind, this, in_world, load. simpl.
    rewrite Ha. simpl. now rewrite Hm. }
  unfold WaitForDriveToMount.
  erewrite bind_Ret by exact Hderef.
  erewrite bind_Ret by (unfold in_world; simpl; rewrite Ht; reflexivity).
  destruct (mounted_at a (later m w)); reflexivity.
Qed.

Lemma WaitForDriveToMount_bounded_witness :
  exists m,
    (m <= 10)%nat /\
    WaitForDriveToMount (Cases.holder None, Cases.with_region false false) =
      Some (if mounted_at 0 (later m (Cases.with_region false false)) then Ret tt
            else Throw DriveErrors_failed_to_mount,
            (Cases.holder None, later m (Cases.with_region false false))) /\
    (forall k, (k < m)%nat -> mounted_at 0 (later k (Cases.with_region false false)) = false) /\
    (mounted_at 0 (later m (Cases.with_region false false)) = false -> m = 10%nat).
Proof.
  apply (WaitForDriveToMount_bounded (Cases.holder None) (Cases.with_region false false)
           0%nat (mkMountStatus false false)); reflexivity.
Defined.

(** ** The unmount request stays raised *)

Lemma keeps_unmount_bind {A B} (a : nat) (m : M World A) (f : A -> M World B) :
  keeps_unmount a m -> (forall x, keeps_unmount a (f x)) -> keeps_unmount a (bind m f).
Proof.
  intros Hm Hf w r w' H Ha. unfold bind in H.
  destruct (m w) as [[[x | e |] w1] |] eqn:E; try discriminate.
  - eapply Hf; [exact H |]. eapply Hm; eauto.
  - inversion H. subst. eapply Hm; eauto.
  - inversion H. subst. eapply Hm; eauto.
Qed.

Lemma keeps_unmount_same_memory {A} (a : nat) (m : M World A) :
  (forall w r w', m w = Some (r, w') -> memory w' = memory w) -> keeps_unmount a m.
Proof.
  intros Hsame w r w' H Ha. unfold unmount_at in *. now rewrite (Hsame _ _ _ H).
Qed.

Lemma ReadAndRemoveInitialSharedMemory_memory
    (name : string) (o : Options) (w w' : World) (r : outcome Options) :
  ReadAndRemoveInitialSharedMemory name o w = Some (r, w') -> memory w' = memory w.
Proof.
  intros H.
  destruct (ReadAndRemoveInitialSharedMemory_cases _ _ _ _ _ H)
    as [(o1 & items & _ & -> & _) | [-> _]]; reflexivity.
Qed.

Lemma keeps_unmount_signal (a : nat) (mutex_free : bool) (name : string) (b : bool) :
  keeps_unmount a (DoNotifyMountStatus_signal mutex_free name b).
Proof.
  intros w r w' H Ha.
  destruct (DoNotifyMountStatus_signal_inv _ _ _ _ _ _ H)
    as [(a' & ms & _ & _ & Hm & ->) | (-> & _)]; [| exact Ha].
  unfold unmount_at in *. simpl.
  destruct (decide (a' = a)) as [-> | Hne].
  - rewrite lookup_insert_eq. simpl. now rewrite Hm in Ha.
  - now rewrite lookup_insert_ne.
Qed.

Lemma child_after_unmount {A} (a : nat) (m : M World A) (p : Process) (w : World) :
  keeps_unmount a m ->
  unmount_at a w = true -> unmount_at a (child_after p (m w) w) = true.
Proof.
  intros Hm Ha. unfold child_after.
  destruct (m w) as [[[x | e |] w1] |] eqn:E; try assumption;
    change (unmount_at a w1 = true); eapply Hm; eauto.
Qed.

Lemma child_step_unmount (mutex_free : bool) (a : nat) (w : World) :
  unmount_at a w = true -> unmount_at a (child_step mutex_free w) = true.
Proof.
  intros Ha. unfold child_step.
  destruct (child w) as [[args [| act rest] []] |]; try assumption.
  destruct act; try assumption.
  - apply child_after_unmount; [| exact Ha].
    apply keeps_unmount_same_memory. intros ? ? ?.
    apply ReadAndRemoveInitialSharedMemory_memory.
  - apply child_after_unmount; [apply keeps_unmount_signal | exact Ha].
  - apply child_after_unmount; [| exact Ha].
    apply keeps_unmount_same_memory. intros w0 r w' H.
    unfold bind, bi_open_only, wait_unmount in H.
    destruct (names w0 !! _) as [[items | b] |]; try (inversion H; reflexivity).
    destruct (mutex_free && unmount_at b w0); inversion H; reflexivity.
  - apply child_after_unmount; [| exact Ha].
    unfold NotifyUnmounted, DoNotifyMountStatus.
    apply keeps_unmount_bind; [apply keeps_unmount_signal |].
    intros x w0 r w' H. unfold ret in H. inversion H. now subst.
Qed.

Lemma tick_unmount (a : nat) (w : World) :
  unmount_at a w = true -> unmount_at a (tick w) = true.
Proof. apply child_step_unmount. Qed.

Lemma later_unmount (a : nat) (n : nat) :
  forall w, unmount_at a w = true -> unmount_at a (later n w) = true.
Proof.
  induction n as [|n IH]; intros w Ha; [exact Ha |].
  rewrite later_S. apply IH. now apply tick_unmount.
Qed.

Lemma timed_wait_unmount (a : nat) (pred : World -> bool) (seconds : nat) (w w' : World)
    (ok : bool) :
  timed_wait seconds pred w = (ok, w') ->
  unmount_at a w = true -> unmount_at a w' = true.
Proof.
  intros H Ha.
  destruct (timed_wait_spec pred seconds w) as (m & _ & Ht & _).
  rewrite Ht in H. inversion H. now apply later_unmount.
Qed.

Lemma bp_wait_for_exit_unmount (a : nat) (fuel : nat) :
  forall w w' r,
    bp_wait_for_exit fuel w = Some (r, w') ->
    unmount_at a w = true -> unmount_at a w' = true.
Proof.
  induction fuel as [|fuel IH]; intros w w' r; rewrite bp_wait_for_exit_unfold;
    destruct (child w) as [[args todo []] |]; intros H Ha;
    try discriminate; try (inversion H; now subst).
  eapply IH; [exact H |]. now apply child_step_unmount.
Qed.

(** X7. A stop leaves the unmount request raised: whenever StopDriveProcess
    returns on an object with a process handle and a mapped region, the
    unmount flag of that region is true in the world it leaves; nothing the
    child does through the notification helpers, and nothing in the stop
    itself, clears it again. *)
Theorem stop_leaves_unmount_requested
    (fuel : nat) (l l' : Launcher) (w w' : World)
    (h : bp_child) (a : nat) (ms : MountStatus) :
  drive_process_ l = Some h ->
  mount_status_ l = Some a ->
  memory w !! a = Some ms ->
  StopDriveProcess fuel (l, w) = Some (Ret tt, (l', w')) ->
  unmount_at a w' = true.
Proof.
  intros Hh Ha Hm H.
  rewrite (StopDriveProcess_live fuel l w h a ms Hh Ha Hm) in H.
  assert (Hreq : unmount_at a (unmount_requested a w) = true).
  { unfold unmount_at, unmount_requested. simpl. now rewrite lookup_insert_eq. }
  destruct (timed_wait _ _ _) as [ok w2] eqn:Ht.
  pose proof (timed_wait_unmount a _ _ _ _ _ Ht Hreq) as H2.
  destruct ok.
  - destruct (bp_wait_for_exit fuel w2) as [[r w3] |] eqn:Hw; [| discriminate].
    inversion H. subst. eapply bp_wait_for_exit_unmount; eauto.
  - inversion H. subst. unfold unmount_at, terminated, bp_terminate in *.
    destruct (child w2) as [[args todo []] |]; exact H2.
Qed.

Lemma stop_leaves_unmount_requested_witness :
  unmount_at 0 (terminated (later 10 (unmount_requested 0 (Cases.with_region true false))))
    = true.
Proof.
  apply (stop_leaves_unmount_requested 0 (Cases.holder (Some ChildHandle))
           (Cases.holder None) (Cases.with_region true false) _ ChildHandle 0%nat
           (mkMountStatus true false)); reflexivity.
Defined.

(** ** What a finished construction guarantees *)

Lemma WaitForDriveToMount_Ret_inv (l l' : Launcher) (w w' : World) :
  WaitForDriveToMount (l, w) = Some (Ret tt, (l', w')) ->
  l' = l /\
  exists a,
    mount_status_ l = Some a /\ is_Some (memory w !! a) /\
    timed_wait kTimeoutSeconds (mounted_at a) w = (true, w').
Proof.
  unfold WaitForDriveToMount. intros H.
  apply bind_Ret_inv in H as (a & [l1 w1] & Hd & H).
  unfold deref_mount_status, bind, this in Hd. simpl in Hd.
  destruct (mount_status_ l) as [a' |] eqn:Ha; [| discriminate].
  unfold in_world, load in Hd. simpl in Hd.
  destruct (memory w !! a') as [ms |] eqn:Hm; [| discriminate].
  inversion Hd. subst a' l1 w1.
  apply bind_Ret_inv in H as (ok & [l2 w2] & Ht & H).
  unfold in_world in Ht. simpl in Ht.
  destruct (timed_wait kTimeoutSeconds (mounted_at a) w) as [ok' w3] eqn:Et.
  inversion Ht. subst ok' l2 w3.
  destruct ok; [| discriminate]. unfold ret in H. inversion H. subst.
  split; [reflexivity |]. exists a. eauto.
Qed.

Lemma timed_wait_true (seconds : nat) (pred : World -> bool) (w w' : World) :
  timed_wait seconds pred w = (true, w') -> pred w' = true.
Proof.
  intros H. destruct (timed_wait_spec pred seconds w) as (m & _ & Ht & _).
  rewrite Ht in H. inversion H. congruence.
Qed.


(** The facts a returned instance carries. *)
Lemma Launcher_ctor_Ret_inv
    (G : string -> fs_path) (win32 : bool) (fuel : nat) (options : Options)
    (random_name : string) (w w' : World) (l : Launcher) :
  Launcher_ctor G win32 fuel options random_name w = Some (Ret l, w') ->
  exists w1 a,
    construct_until_spawned G options (initial_Launcher win32 options random_name, w)
      = Some (Ret tt, (l, w1)) /\
    l = set_drive_process_ (Some ChildHandle)
          (set_mount_status_ (Some a) (initial_Launcher win32 options random_name)) /\
    timed_wait kTimeoutSeconds (mounted_at a) w1 = (true, w') /\
    is_Some (memory w' !! a).
Proof.
  unfold Launcher_ctor, on_scope_exit.
  fold (initial_Launcher win32 options random_name).
  set (s0 := (initial_Launcher win32 options random_name, w)).
  destruct ((CreateInitialSharedMemory options;;;
             CreateMountStatusSharedMemory;;;
             StartDriveProcess G options;;; WaitForDriveToMount) s0)
    as [[[[] | e |] [l2 w2]] |] eqn:Eb; try discriminate.
  2:{ destruct (try_catch_log (StopDriveProcess fuel) (l2, w2)) as [[[[] | e' |] [l3 w3]] |];
      discriminate. }
  intros H. inversion H. subst l2 w2. clear H.
  apply bind_Ret_inv in Eb as ([] & [lA wA] & HA & Eb).
  apply bind_Ret_inv in Eb as ([] & [lB wB] & HB & Eb).
  apply bind_Ret_inv in Eb as ([] & [lC wC] & HC & Eb).
  apply WaitForDriveToMount_Ret_inv in Eb as (-> & a & Ha & Hm & Ht).
  destruct (CreateInitialSharedMemory_object _ _ _ _ _ _ HA) as (-> & _ & _).
  pose proof HB as HB'.
  apply CreateMountStatusSharedMemory_Ret_inv in HB' as (a' & _ & -> & _).
  pose proof HC as HC'.
  apply StartDriveProcess_Ret_inv in HC' as [-> _].
  simpl in Ha. inversion Ha. subst a'.
  exists wC, a. split; [| split; [reflexivity | split; [exact Ht |]]].
  - unfold construct_until_spawned.
    erewrite bind_Ret by exact HA. erewrite bind_Ret by exact HB. exact HC.
  - eapply timed_wait_memory; eauto.
Qed.

(** X8. A construction that returns an instance has seen the mount: the
    instance holds a process handle, the random name it was given and the
    adjusted mount path, its [mount_status_] points to a mapped region, and
    the mounted flag of that region is true in the world the constructor
    leaves. *)
Theorem construction_success_means_mounted
    (G : string -> fs_path) (win32 : bool) (fuel : nat) (options : Options)
    (random_name : string) (w w' : World) (l : Launcher) :
  Launcher_ctor G win32 fuel options random_name w = Some (Ret l, w') ->
  drive_process_ l = Some ChildHandle /\
  initial_shared_memory_name_ l = random_name /\
  kMountPath_ l = AdjustMountPath win32 (mount_path options) /\
  exists a, mount_status_ l = Some a /\ mounted_at a w' = true.
Proof.
  intros H.
  destruct (Launcher_ctor_Ret_inv _ _ _ _ _ _ _ _ H) as (w1 & a & _ & -> & Ht & _).
  repeat split. exists a. split; [reflexivity |].
  exact (timed_wait_true _ _ _ _ Ht).
Qed.

Lemma construction_success_means_mounted_witness :
  let l := fst (Scenario.constructed Scenario.deaf) in
  let w' := snd (Scenario.constructed Scenario.deaf) in
  drive_process_ l = Some ChildHandle /\
  initial_shared_memory_name_ l = Scenario.name /\
  kMountPath_ l = AdjustMountPath false (mount_path Scenario.options) /\
  exists a, mount_status_ l = Some a /\ mounted_at a w' = true.
Proof.
  intros l w'.
  apply (construction_success_means_mounted Scenario.exe_dir false 0 Scenario.options
           Scenario.name (Scenario.machine Scenario.deaf) w' l).
  vm_compute. reflexivity.
Defined.

(** X9. Seeing the mount is enough: when the steps up to the spawn succeed
    and the mounted flag is observed within the ten seconds, the constructor
    returns the instance with the world as the wait left it, without running
    the cleanup and whatever the fuel. *)
Theorem construction_succeeds_when_mounted
    (G : string -> fs_path) (win32 : bool) (fuel : nat) (options : Options)
    (random_name : string) (w w1 w2 : World) (l1 : Launcher) (a : nat) :
  construct_until_spawned G options (initial_Launcher win32 options random_name, w)
    = Some (Ret tt, (l1, w1)) ->
  mount_status_ l1 = Some a ->
  timed_wait kTimeoutSeconds (mounted_at a) w1 = (true, w2) ->
  Launcher_ctor G win32 fuel options random_name w = Some (Ret l1, w2).
Proof.
  intros Hpre Ha Ht.
  destruct (construct_until_spawned_inv _ _ _ _ _ _ Hpre) as (a' & Ha' & _ & Hm).
  assert (a' = a) as -> by congruence.
  rewrite (Launcher_ctor_spawned _ _ _ _ _ _ _ Hpre).
  assert (Hw : WaitForDriveToMount (l1, w1) = Some (Ret tt, (l1, w2))).
  { assert (Hderef : deref_mount_status (l1, w1) = Some (Ret a, (l1, w1))).
    { unfold deref_mount_status, bind, this, in_world, load. simpl.
      rewrite Ha. simpl. now rewrite Hm. }
    unfold WaitForDriveToMount.
    erewrite bind_Ret by exact Hderef.
    erewrite bind_Ret by (unfold in_world; simpl; rewrite Ht; reflexivity).
    reflexivity. }
  unfold on_scope_exit. now rewrite Hw.
Qed.

Lemma construction_succeeds_when_mounted_witness :
  Launcher_ctor Scenario.exe_dir false 7 Scenario.options Scenario.name
    (Scenario.machine Scenario.deaf)
  = Some (Ret (fst (Scenario.spawned Scenario.deaf)),
          snd (timed_wait kTimeoutSeconds (mounted_at 0)
                 (snd (Scenario.spawned Scenario.deaf)))).
Proof.
  apply (construction_succeeds_when_mounted Scenario.exe_dir false 7 Scenario.options
           Scenario.name (Scenario.machine Scenario.deaf)
           (snd (Scenario.spawned Scenario.deaf)) _
           (fst (Scenario.spawned Scenario.deaf)) 0%nat).
  - vm_compute. reflexivity.
  - vm_compute. reflexivity.
  - vm_compute. reflexivity.
Defined.



(** ** The destructor *)




(** ** Constructions that fail before the wait *)

Lemma Launcher_ctor_bootstrap_failure
    (G : string -> fs_path) (win32 : bool) (fuel : nat) (options : Options)
    (random_name : string) (w w' : World) (l : Launcher) (e : error) :
  CreateInitialSharedMemory options (initial_Launcher win32 options random_name, w)
    = Some (Throw e, (l, w')) ->
  Launcher_ctor G win32 fuel options random_name w = Some (Throw e, w').
Proof.
  intros HA.
  destruct (CreateInitialSharedMemory_object _ _ _ _ _ _ HA) as (-> & _ & _).
  unfold Launcher_ctor, on_scope_exit, try_catch_log.
  fold (initial_Launcher win32 options random_name).
  erewrite bind_Throw by exact HA.
  now rewrite StopDriveProcess_null.
Qed.

(** X13. A Bootstrap Segment name that is already registered is never
    overwritten or removed: with both ids initialised, construction under
    such a name throws ResourceUnavailable and leaves the world, the
    existing object under that name included, exactly as it was. *)
Theorem construction_respects_taken_name
    (G : string -> fs_path) (win32 : bool) (fuel : nat) (options : Options)
    (random_name uid rid : string) (w : World) :
  unique_id options = Identity_holding uid ->
  root_parent_id options = Identity_holding rid ->
  is_Some (names w !! random_name) ->
  Launcher_ctor G win32 fuel options random_name w = Some (Throw ResourceUnavailable, w).
Proof.
  intros Hu Hr [x Hx].
  apply (Launcher_ctor_bootstrap_failure G win32 fuel options random_name w w
           (initial_Launcher win32 options random_name)).
  unfold CreateInitialSharedMemory, bind, lift, this, in_world, ipc_CreateSharedMemory.
  rewrite Hu, Hr. simpl. now rewrite Hx.
Qed.

Lemma construction_respects_taken_name_witness :
  Launcher_ctor Scenario.exe_dir false 0 Scenario.options "boot" Cases.with_segment
    = Some (Throw ResourceUnavailable, Cases.with_segment).
Proof.
  apply (construction_respects_taken_name Scenario.exe_dir false 0 Scenario.options
           "boot" Cases.id_u Cases.id_r Cases.with_segment).
  - reflexivity.
  - reflexivity.
  - eexists. reflexivity.
Defined.

(** ** The steps of the constructor, forwards *)

Lemma CreateMountStatusSharedMemory_ok (l : Launcher) (w : World) :
  names w !! GetMountStatusSharedMemoryName (initial_shared_memory_name_ l) = None ->
  CreateMountStatusSharedMemory (l, w) =
    Some (Ret tt,
          (set_mount_status_ (Some (region_address w)) l,
           with_status_region (initial_shared_memory_name_ l) w)).
Proof.
  intros H.
  unfold CreateMountStatusSharedMemory, bind, this, in_world, bi_create_only, store,
    update_this, modify. simpl. now rewrite H.
Qed.

Lemma StartDriveProcess_spawn
    (G : string -> fs_path) (options : Options) (l : Launcher) (w : World) (exe : fs_path) :
  GetDriveExecutablePath G (drive_type options) = Ret exe ->
  StartDriveProcess G options (l, w) =
    match exes w !! path_string exe with
    | Some script =>
        Some (Ret tt,
              (set_drive_process_ (Some ChildHandle) l,
               set_child (Some (mkProcess
                                  (drive_command_line exe (initial_shared_memory_name_ l)
                                     options) script Running)) w))
    | None =>
        Some (Throw CommonErrors_uninitialised,
              (set_drive_process_ (Some ChildHandle) l,
               set_child (Some (mkProcess
                                  (drive_command_line exe (initial_shared_memory_name_ l)
                                     options) [] NotStarted)) w))
    end.
Proof.
  intros H.
  unfold StartDriveProcess, bind, this, lift, in_world, bp_execute, update_this, modify,
    throw, ret, ConstructCommandLine, drive_command_line.
  rewrite H. simpl.
  destruct (String.eqb (drive_logging_args options) "");
    destruct (exes w !! path_string exe); reflexivity.
Qed.

Lemma fresh_region_unmapped (w : World) : memory w !! region_address w = None.
Proof.
  unfold region_address. apply not_elem_of_dom. apply is_fresh.
Qed.

(** X14. When the operating system refuses to start the drive executable,
    the process handle is set all the same, so the unwinding runs the whole
    stop path; it does not block: for every fuel the constructor throws
    uninitialised, the process recorded for the command line was never
    started, and the region is left with the unmount flag raised and the
    mounted flag clear. *)
Theorem construction_fails_when_spawn_refused
    (G : string -> fs_path) (win32 : bool) (fuel : nat) (options : Options)
    (random_name uid rid : string) (exe : fs_path) (w : World) :
  unique_id options = Identity_holding uid ->
  root_parent_id options = Identity_holding rid ->
  names w !! random_name = None ->
  names w !! GetMountStatusSharedMemoryName random_name = None ->
  GetMountStatusSharedMemoryName random_name <> random_name ->
  GetDriveExecutablePath G (drive_type options) = Ret exe ->
  exes w !! path_string exe = None ->
  exists w',
    Launcher_ctor G win32 fuel options random_name w
      = Some (Throw CommonErrors_uninitialised, w') /\
    child w' = Some (mkProcess (drive_command_line exe random_name options) [] NotStarted) /\
    memory w' !! region_address w = Some (mkMountStatus false true).
Proof.
  intros Hu Hr Hn Hms Hne Hexe Hnone.
  set (l0 := initial_Launcher win32 options random_name).
  pose proof (CreateInitialSharedMemory_ok options l0 w uid rid Hu Hr Hn) as HA.
  fold (with_bootstrap options uid rid random_name w) in HA.
  set (wA := with_bootstrap options uid rid random_name w) in *.
  assert (HmsA : names wA !! GetMountStatusSharedMemoryName
                                (initial_shared_memory_name_ l0) = None).
  { unfold wA, with_bootstrap. simpl. now rewrite lookup_insert_ne by congruence. }
  pose proof (CreateMountStatusSharedMemory_ok l0 wA HmsA) as HB.
  set (lB := set_mount_status_ (Some (region_address wA)) l0) in *.
  set (wB := with_status_region (initial_shared_memory_name_ l0) wA) in *.
  pose proof (StartDriveProcess_spawn G options lB wB exe Hexe) as HC.
  change (exes wB) with (exes w) in HC. rewrite Hnone in HC.
  set (a := region_address w).
  assert (Hl : set_drive_process_ (Some ChildHandle) lB
               = mkLauncher random_name (AdjustMountPath win32 (mount_path options))
                   (Some a) (Some ChildHandle)) by reflexivity.
  rewrite Hl in HC. clear Hl.
  set (lC := mkLauncher random_name _ (Some a) (Some ChildHandle)) in *.
  set (wC := set_child _ wB) in HC.
  assert (Hmem : memory wC !! a = Some (mkMountStatus false false)).
  { unfold wC, wB, with_status_region. simpl. apply lookup_insert_eq. }
  assert (Hchild : child wC = Some (mkProcess (drive_command_line exe random_name options)
                                      [] NotStarted)) by reflexivity.
  clearbody wC.
  assert (Hnow : timed_wait kTimeoutSeconds (fun w0 => negb (mounted_at a w0))
                   (unmount_requested a wC) = (true, unmount_requested a wC)).
  { apply timed_wait_now. unfold unmount_requested, mounted_at. simpl.
    rewrite lookup_insert_eq. simpl. now rewrite Hmem. }
  assert (Hidle : child_running (unmount_requested a wC) = false).
  { unfold child_running, unmount_requested. simpl. now rewrite Hchild. }
  destruct (bp_wait_for_exit_ended fuel _ Hidle) as [c Hwait].
  assert (Hstop : StopDriveProcess fuel (lC, wC)
                  = Some (Ret tt, (set_drive_process_ None lC, unmount_requested a wC))).
  { rewrite (StopDriveProcess_live fuel lC wC ChildHandle a _ eq_refl eq_refl Hmem),
      Hnow, Hwait. reflexivity. }
  exists (unmount_requested a wC). split; [| split].
  - unfold Launcher_ctor, on_scope_exit, try_catch_log. fold l0.
    erewrite bind_Ret by exact HA.
    erewrite bind_Ret by exact HB.
    erewrite bind_Throw by exact HC.
    now rewrite Hstop.
  - exact Hchild.
  - unfold unmount_requested, mounted_at. simpl. rewrite lookup_insert_eq.
    now rewrite Hmem.
Qed.

Lemma construction_fails_when_spawn_refused_witness :
  exists w',
    Launcher_ctor Scenario.exe_dir false 0 Scenario.options "boot"
      (mkWorld ∅ ∅ ∅ None)
      = Some (Throw CommonErrors_uninitialised, w') /\
    child w' = Some (mkProcess (drive_command_line (Scenario.exe_dir "local_drive") "boot"
                                  Scenario.options) [] NotStarted) /\
    memory w' !! region_address (mkWorld ∅ ∅ ∅ None) = Some (mkMountStatus false true).
Proof.
  apply (construction_fails_when_spawn_refused Scenario.exe_dir false 0 Scenario.options
           "boot" Cases.id_u Cases.id_r (Scenario.exe_dir "local_drive")
           (mkWorld ∅ ∅ ∅ None)).
  - reflexivity.
  - reflexivity.
  - reflexivity.
  - reflexivity.
  - intros H. vm_compute in H. discriminate H.
  - reflexivity.
  - reflexivity.
Defined.

(** ** A child that follows the contract *)

Lemma substring_all (s : string) : String.substring 0 (String.length s) s = s.
Proof. induction s as [|c s IH]; simpl; congruence. Qed.

Lemma child_shared_memory_name_args (p : Process) :
  child_shared_memory_name p = command_line_name (proc_args p).
Proof. reflexivity. Qed.

Lemma command_line_name_drive (exe : fs_path) (name : string) (options : Options) :
  command_line_name (drive_command_line exe name options) = name.
Proof.
  unfold drive_command_line, command_line_name, shared_memory_option.
  destruct (String.eqb (drive_logging_args options) ""); simpl;
    rewrite Nat.sub_0_r; apply substring_all.
Qed.

Lemma tick_Sleep nm mem ex args rest :
  tick (mkWorld nm mem ex (Some (mkProcess args (Sleep :: rest) Running)))
  = mkWorld nm mem ex (Some (mkProcess args rest Running)).
Proof. reflexivity. Qed.

Lemma child_step_ExitProcess mutex_free nm mem ex args rest code :
  child_step mutex_free
    (mkWorld nm mem ex (Some (mkProcess args (ExitProcess code :: rest) Running)))
  = mkWorld nm mem ex (Some (mkProcess args rest (Exited code))).
Proof. reflexivity. Qed.

Lemma tick_ExitProcess nm mem ex args rest code :
  tick (mkWorld nm mem ex (Some (mkProcess args (ExitProcess code :: rest) Running)))
  = mkWorld nm mem ex (Some (mkProcess args rest (Exited code))).
Proof. reflexivity. Qed.

Lemma tick_Read nm mem ex args rest name a0 a1 a2 a3 a4 a5 n :
  command_line_name args = name ->
  nm !! name = Some (Segment [a0; a1; a2; a3; a4; a5]) ->
  String.length a2 = 64%nat -> String.length a3 = 64%nat -> stoi a5 = Ret n ->
  tick (mkWorld nm mem ex
          (Some (mkProcess args (CallReadAndRemoveInitialSharedMemory :: rest) Running)))
  = mkWorld (delete name nm) mem ex (Some (mkProcess args rest Running)).
Proof.
  intros Hname Hseg H2 H3 H5. unfold tick, child_step. cbn [child].
  rewrite child_shared_memory_name_args. cbn [proc_args]. rewrite Hname.
  erewrite ReadAndRemoveInitialSharedMemory_ok by eauto.
  reflexivity.
Qed.

Lemma tick_SignalMounted nm mem ex args rest name a ms :
  command_line_name args = name ->
  nm !! GetMountStatusSharedMemoryName name = Some (Region a) ->
  mem !! a = Some ms ->
  tick (mkWorld nm mem ex (Some (mkProcess args (SignalMounted :: rest) Running)))
  = mkWorld nm (<[a := mkMountStatus true (unmount ms)]> mem) ex
      (Some (mkProcess args rest Running)).
Proof.
  intros Hname Hn Hm. unfold tick, child_step. cbn [child].
  unfold child_mount_status_name. rewrite child_shared_memory_name_args. cbn [proc_args].
  rewrite Hname.
  unfold DoNotifyMountStatus_signal, bind, bi_open_only, scoped_lock, load, store, modify,
    ret.
  cbn [names memory]. rewrite Hn. cbn [memory]. rewrite Hm. reflexivity.
Qed.

Lemma tick_WaitUnmountRequest nm mem ex args rest name a ms :
  command_line_name args = name ->
  nm !! GetMountStatusSharedMemoryName name = Some (Region a) ->
  mem !! a = Some ms -> unmount ms = true ->
  tick (mkWorld nm mem ex (Some (mkProcess args (WaitUnmountRequest :: rest) Running)))
  = mkWorld nm mem ex (Some (mkProcess args rest Running)).
Proof.
  intros Hname Hn Hm Hu. unfold tick, child_step. cbn [child].
  unfold child_mount_status_name. rewrite child_shared_memory_name_args. cbn [proc_args].
  rewrite Hname.
  unfold bind, bi_open_only, wait_unmount, unmount_at.
  cbn [names memory andb]. rewrite Hn. cbn [memory]. rewrite Hm, Hu. reflexivity.
Qed.

Lemma tick_CallNotifyUnmounted nm mem ex args rest name a ms :
  command_line_name args = name ->
  nm !! GetMountStatusSharedMemoryName name = Some (Region a) ->
  mem !! a = Some ms ->
  tick (mkWorld nm mem ex (Some (mkProcess args (CallNotifyUnmounted :: rest) Running)))
  = mkWorld nm (<[a := mkMountStatus false (unmount ms)]> mem) ex
      (Some (mkProcess args rest Running)).
Proof.
  intros Hname Hn Hm. unfold tick, child_step. cbn [child].
  unfold child_mount_status_name. rewrite child_shared_memory_name_args. cbn [proc_args].
  rewrite Hname.
  unfold NotifyUnmounted, DoNotifyMountStatus, DoNotifyMountStatus_signal, bind,
    bi_open_only, scoped_lock, load, store, modify, ret.
  cbn [names memory]. rewrite Hn. cbn [memory]. rewrite Hm. reflexivity.
Qed.

Lemma timed_wait_tick (n : nat) (pred : World -> bool) (w : World) :
  pred w = false -> timed_wait (S n) pred w = timed_wait n pred (tick w).
Proof. intros H. rewrite timed_wait_unfold. now rewrite H. Qed.

Lemma timed_wait_sleeps (pred : World -> bool) nm mem ex args rest (d n : nat) :
  (forall c, pred (mkWorld nm mem ex c) = false) ->
  timed_wait (d + n) pred
    (mkWorld nm mem ex (Some (mkProcess args (List.repeat Sleep d ++ rest) Running)))
  = timed_wait n pred (mkWorld nm mem ex (Some (mkProcess args rest Running))).
Proof.
  intros Hp. induction d as [|d IH]; [reflexivity |].
  cbn [Nat.add List.repeat app]. rewrite timed_wait_tick by apply Hp.
  rewrite tick_Sleep. exact IH.
Qed.

Lemma WaitForDriveToMount_mounted (l : Launcher) (w w2 : World) (a : nat) (ms : MountStatus) :
  mount_status_ l = Some a ->
  memory w !! a = Some ms ->
  timed_wait kTimeoutSeconds (mounted_at a) w = (true, w2) ->
  WaitForDriveToMount (l, w) = Some (Ret tt, (l, w2)).
Proof.
  intros Ha Hm Ht. unfold WaitForDriveToMount.
  assert (Hderef : deref_mount_status (l, w) = Some (Ret a, (l, w))).
  { unfold deref_mount_status, bind, this, in_world, load. simpl.
    rewrite Ha. simpl. now rewrite Hm. }
  erewrite bind_Ret by exact Hderef.
  erewrite bind_Ret by (unfold in_world; simpl; rewrite Ht; reflexivity).
  reflexivity.
Qed.

Lemma names_restored (nm : gmap string ShmObject) (name msname : string) (s r : ShmObject) :
  nm !! name = None -> nm !! msname = None ->
  delete msname (delete name (delete name (<[msname := r]> (<[name := s]> nm)))) = nm.
Proof.
  intros Hn Hm. apply map_eq. intros i.
  rewrite !lookup_delete, !lookup_insert.
  repeat case_decide; subst; congruence.
Qed.

(** X15. The handshake end to end.  For valid options, free names and a
    drive executable that follows the collaborator contract (reads the
    segment, signals mounted after [d1 <= 8] seconds of work, waits for the
    unmount request, signals unmounted after [d2 <= 8] seconds, exits with
    [code]), the constructor returns an instance with the drive mounted and
    the Bootstrap Segment consumed, and the destructor then returns with the
    handle null, the child exited with its own exit code (never killed) and
    the registered names exactly as they were before the launch. *)
Theorem orderly_launch_and_shutdown
    (G : string -> fs_path) (win32 : bool) (fuel : nat) (options : Options)
    (random_name uid rid : string) (exe : fs_path) (d1 d2 : nat) (code : Z) (w : World) :
  unique_id options = Identity_holding uid -> String.length uid = 64%nat ->
  root_parent_id options = Identity_holding rid -> String.length rid = 64%nat ->
  names w !! random_name = None ->
  names w !! GetMountStatusSharedMemoryName random_name = None ->
  GetMountStatusSharedMemoryName random_name <> random_name ->
  GetDriveExecutablePath G (drive_type options) = Ret exe ->
  exes w !! path_string exe = Some (well_behaved_script d1 d2 code) ->
  (d1 <= 8)%nat -> (d2 <= 8)%nat -> (1 <= fuel)%nat ->
  exists l w1 l' w2,
    Launcher_ctor G win32 fuel options random_name w = Some (Ret l, w1) /\
    child_running w1 = true /\
    names w1 !! random_name = None /\
    mounted_at (region_address w) w1 = true /\
    Launcher_dtor fuel (l, w1) = Some (Ret tt, (l', w2)) /\
    drive_process_ l' = None /\
    child w2 = Some (mkProcess (drive_command_line exe random_name options) []
                       (Exited code)) /\
    names w2 = names w.
Proof.
  intros Hu Hul Hr Hrl Hn Hms Hne Hexe Hscript Hd1 Hd2 Hfuel.
  destruct w as [nm mem ex ch]. cbn [names exes] in Hn, Hms, Hscript.
  set (name := random_name) in *.
  set (msname := GetMountStatusSharedMemoryName name) in *.
  set (a := fresh (dom mem)).
  set (args := drive_command_line exe name options).
  set (seg := Segment (bootstrap_fields options uid rid)).
  set (ff := mkMountStatus false false).
  set (l0 := initial_Launcher win32 options name).
  set (lC := mkLauncher name (AdjustMountPath win32 (mount_path options)) (Some a)
               (Some ChildHandle)).
  set (nmB := <[msname := Region a]> (<[name := seg]> nm)).
  set (memB := <[a := ff]> (<[a := ff]> mem)).
  set (restM := (WaitUnmountRequest :: List.repeat Sleep d2 ++
                 [CallNotifyUnmounted; ExitProcess code])%list).
  assert (Hargs : command_line_name args = name) by apply command_line_name_drive.
  (* the steps up to the spawn *)
  assert (HA : CreateInitialSharedMemory options (l0, mkWorld nm mem ex ch)
               = Some (Ret tt, (l0, mkWorld (<[name := seg]> nm) mem ex ch))).
  { apply (CreateInitialSharedMemory_ok options l0 (mkWorld nm mem ex ch) uid rid Hu Hr Hn). }
  assert (HB : CreateMountStatusSharedMemory (l0, mkWorld (<[name := seg]> nm) mem ex ch)
               = Some (Ret tt, (set_mount_status_ (Some a) l0, mkWorld nmB memB ex ch))).
  { rewrite (CreateMountStatusSharedMemory_ok l0 (mkWorld (<[name := seg]> nm) mem ex ch));
      [reflexivity |].
    change (<[name := seg]> nm !! msname = None).
    rewrite lookup_insert_ne by (intros E; apply Hne; symmetry; exact E). exact Hms. }
  assert (HC : StartDriveProcess G options
                 (set_mount_status_ (Some a) l0, mkWorld nmB memB ex ch)
               = Some (Ret tt,
                       (lC, mkWorld nmB memB ex
                              (Some (mkProcess args (well_behaved_script d1 d2 code)
                                       Running))))).
  { rewrite (StartDriveProcess_spawn G options _ _ exe Hexe). cbn [exes].
    now rewrite Hscript. }
  assert (Hpre : construct_until_spawned G options (l0, mkWorld nm mem ex ch)
                 = Some (Ret tt,
                         (lC, mkWorld nmB memB ex
                                (Some (mkProcess args (well_behaved_script d1 d2 code)
                                         Running))))).
  { unfold construct_until_spawned.
    erewrite bind_Ret by exact HA. erewrite bind_Ret by exact HB. exact HC. }
  (* the mount *)
  assert (HmemB : memB !! a = Some ff) by apply lookup_insert_eq.
  assert (Hseg : nmB !! name = Some seg).
  { unfold nmB. rewrite lookup_insert_ne by exact Hne. apply lookup_insert_eq. }
  assert (Hreg : delete name nmB !! msname = Some (Region a)).
  { rewrite lookup_delete_ne by congruence. apply lookup_insert_eq. }
  assert (Hstoi : stoi (if create_store options then "1" else "0")
                  = Ret (if create_store options then 1 else 0))
    by (destruct (create_store options); reflexivity).
  set (memM := <[a := mkMountStatus true false]> memB).
  set (wM := mkWorld (delete name nmB) memM ex (Some (mkProcess args restM Running))).
  assert (Hmount : timed_wait kTimeoutSeconds (mounted_at a)
                     (mkWorld nmB memB ex
                        (Some (mkProcess args (well_behaved_script d1 d2 code) Running)))
                   = (true, wM)).
  { replace kTimeoutSeconds with (S (d1 + S (8 - d1))) by (unfold kTimeoutSeconds; lia).
    rewrite timed_wait_tick
      by (unfold mounted_at; cbn [memory]; now rewrite HmemB).
    unfold well_behaved_script.
    erewrite tick_Read by eauto.
    rewrite timed_wait_sleeps
      by (intros c; unfold mounted_at; cbn [memory]; now rewrite HmemB).
    rewrite timed_wait_tick
      by (unfold mounted_at; cbn [memory]; now rewrite HmemB).
    erewrite tick_SignalMounted by eauto.
    apply timed_wait_now. unfold mounted_at, wM. cbn [memory]. unfold memM.
    now rewrite lookup_insert_eq. }
  assert (Hctor : Launcher_ctor G win32 fuel options name (mkWorld nm mem ex ch)
                  = Some (Ret lC, wM)).
  { rewrite (Launcher_ctor_spawned _ _ _ _ _ _ _ Hpre). unfold on_scope_exit.
    now rewrite (WaitForDriveToMount_mounted lC
                   (mkWorld nmB memB ex
                      (Some (mkProcess args (well_behaved_script d1 d2 code) Running)))
                   wM a ff eq_refl HmemB Hmount). }
  (* the unmount *)
  assert (HmemM : memM !! a = Some (mkMountStatus true false)) by apply lookup_insert_eq.
  set (memU := <[a := mkMountStatus true true]> memM).
  assert (Hreq : unmount_requested a wM
                 = mkWorld (delete name nmB) memU ex (Some (mkProcess args restM Running))).
  { unfold unmount_requested, mounted_at, wM. cbn [memory]. now rewrite HmemM. }
  assert (HmemU : memU !! a = Some (mkMountStatus true true)) by apply lookup_insert_eq.
  set (wU := mkWorld (delete name nmB) (<[a := mkMountStatus false true]> memU) ex
               (Some (mkProcess args [ExitProcess code] Running))).
  assert (Hunmount : timed_wait kTimeoutSeconds (fun w0 => negb (mounted_at a w0))
                       (unmount_requested a wM) = (true, wU)).
  { rewrite Hreq.
    replace kTimeoutSeconds with (S (d2 + S (8 - d2))) by (unfold kTimeoutSeconds; lia).
    rewrite timed_wait_tick
      by (unfold mounted_at; cbn [memory]; now rewrite HmemU).
    unfold restM.
    erewrite tick_WaitUnmountRequest by eauto.
    rewrite timed_wait_sleeps
      by (intros c; unfold mounted_at; cbn [memory]; now rewrite HmemU).
    rewrite timed_wait_tick
      by (unfold mounted_at; cbn [memory]; now rewrite HmemU).
    erewrite tick_CallNotifyUnmounted by eauto.
    apply timed_wait_now. unfold mounted_at, wU. cbn [memory].
    now rewrite lookup_insert_eq. }
  set (wE := mkWorld (delete name nmB) (<[a := mkMountStatus false true]> memU) ex
               (Some (mkProcess args [] (Exited code)))).
  assert (Hexit : bp_wait_for_exit fuel wU = Some (Ret (Some code), wE)).
  { destruct fuel as [|fuel]; [lia |].
    rewrite bp_wait_for_exit_unfold. unfold wU. cbn [child].
    rewrite child_step_ExitProcess. rewrite bp_wait_for_exit_unfold. reflexivity. }
  assert (Hstop : StopDriveProcess fuel (lC, wM)
                  = Some (Ret tt, (set_drive_process_ None lC, wE))).
  { rewrite (StopDriveProcess_live fuel lC wM ChildHandle a _ eq_refl eq_refl HmemM),
      Hunmount, Hexit. reflexivity. }
  exists lC, wM, (set_drive_process_ None lC),
    (set_names (delete msname) (set_names (delete name) wE)).
  split; [exact Hctor |]. split; [reflexivity |].
  split; [apply lookup_delete_eq |].
  split.
  { change (mounted_at a wM = true). unfold mounted_at, wM. cbn [memory].
    now rewrite HmemM. }
  split; [exact (Launcher_dtor_after_stop fuel lC _ wM wE Hstop) |].
  split; [reflexivity |]. split; [reflexivity |].
  cbn [names set_names wE]. apply names_restored; assumption.
Qed.

Lemma orderly_launch_and_shutdown_witness :
  exists l w1 l' w2,
    Launcher_ctor Scenario.exe_dir false 1 Scenario.options Scenario.name
      (Scenario.machine (well_behaved_script 2 3 0)) = Some (Ret l, w1) /\
    child_running w1 = true /\
    names w1 !! Scenario.name = None /\
    mounted_at (region_address (Scenario.machine (well_behaved_script 2 3 0))) w1 = true /\
    Launcher_dtor 1 (l, w1) = Some (Ret tt, (l', w2)) /\
    drive_process_ l' = None /\
    child w2 = Some (mkProcess (drive_command_line (Scenario.exe_dir "local_drive")
                                  Scenario.name Scenario.options) [] (Exited 0)) /\
    names w2 = names (Scenario.machine (well_behaved_script 2 3 0)).
Proof.
  apply (orderly_launch_and_shutdown Scenario.exe_dir false 1 Scenario.options
           Scenario.name Cases.id_u Cases.id_r (Scenario.exe_dir "local_drive") 2 3 0
           (Scenario.machine (well_behaved_script 2 3 0))).
  - reflexivity.
  - reflexivity.
  - reflexivity.
  - reflexivity.
  - reflexivity.
  - reflexivity.
  - intros H. vm_compute in H. discriminate H.
  - reflexivity.
  - reflexivity.
  - lia.
  - lia.
  - lia.
Defined.

(** ** The Mount-Status Region at creation *)

(** X16. CreateMountStatusSharedMemory either maps a new region or changes
    nothing: under a name that is taken it throws ResourceUnavailable and
    leaves the object (its null pointer included) and the world as they
    were; otherwise it returns with [mount_status_] pointing to a region
    that was not mapped before, registered under the derived name with both
    flags clear, and every region mapped before and every other name is
    untouched. *)
Theorem CreateMountStatusSharedMemory_effect (l l' : Launcher) (w w' : World)
    (r : outcome unit) :
  CreateMountStatusSharedMemory (l, w) = Some (r, (l', w')) ->
  let msname := GetMountStatusSharedMemoryName (initial_shared_memory_name_ l) in
  (is_Some (names w !! msname) /\ r = Throw ResourceUnavailable /\ l' = l /\ w' = w) \/
  (exists a,
      names w !! msname = None /\ r = Ret tt /\
      l' = set_mount_status_ (Some a) l /\
      memory w !! a = None /\
      memory w' !! a = Some (mkMountStatus false false) /\
      names w' !! msname = Some (Region a) /\
      (forall b, b <> a -> memory w' !! b = memory w !! b) /\
      (forall n, n <> msname -> names w' !! n = names w !! n) /\
      child w' = child w).
Proof.
  intros H msname.
  destruct (names w !! msname) as [x |] eqn:E.
  - left. split; [eauto |].
    unfold CreateMountStatusSharedMemory, bind, this, in_world, bi_create_only in H.
    simpl in H. fold msname in H. rewrite E in H. inversion H. auto.
  - right. rewrite (CreateMountStatusSharedMemory_ok l w E) in H.
    inversion H. subst. exists (region_address w).
    split; [reflexivity |]. split; [reflexivity |]. split; [reflexivity |].
    split; [apply fresh_region_unmapped |].
    unfold with_status_region. simpl.
    split; [apply lookup_insert_eq |]. split; [apply lookup_insert_eq |].
    split; [| split; [| reflexivity]].
    + intros b Hb.
      now rewrite !lookup_insert_ne by (intros Eq; apply Hb; symmetry; exact Eq).
    + intros n Hn.
      now rewrite lookup_insert_ne by (intros Eq; apply Hn; symmetry; exact Eq).
Qed.

Lemma CreateMountStatusSharedMemory_effect_witness :
  let l := Cases.holder None in
  let w := Cases.with_segment in
  let msname := GetMountStatusSharedMemoryName (initial_shared_memory_name_ l) in
  (is_Some (names w !! msname) /\ Ret tt = Throw ResourceUnavailable /\
   set_mount_status_ (Some (region_address w)) l = l /\
   with_status_region (initial_shared_memory_name_ l) w = w) \/
  (exists a,
      names w !! msname = None /\ Ret tt = Ret tt /\
      set_mount_status_ (Some (region_address w)) l = set_mount_status_ (Some a) l /\
      memory w !! a = None /\
      memory (with_status_region (initial_shared_memory_name_ l) w) !! a
        = Some (mkMountStatus false false) /\
      names (with_status_region (initial_shared_memory_name_ l) w) !! msname
        = Some (Region a) /\
      (forall b, b <> a ->
                 memory (with_status_region (initial_shared_memory_name_ l) w) !! b
                 = memory w !! b) /\
      (forall n, n <> msname ->
                 names (with_status_region (initial_shared_memory_name_ l) w) !! n
                 = names w !! n) /\
      child (with_status_region (initial_shared_memory_name_ l) w) = child w).
Proof.
  intros l w msname.
  apply (CreateMountStatusSharedMemory_effect l (set_mount_status_ (Some (region_address w)) l)
           w (with_status_region (initial_shared_memory_name_ l) w) (Ret tt)).
  vm_compute. reflexivity.
Defined.

(** ** Drive letters outside C: to Z: *)

(** X17. Only the letters C: to Z: matter to GetNextAvailableDrivePath: two
    drive-letter masks that agree on the bits of C: to Z: give the same
    result, whatever their bits for A:, B: and beyond Z: and whatever the
    fuel, as long as it covers the 30 iterations the loop can make. *)
Theorem GetNextAvailableDrivePath_depends_on_C_to_Z
    (drive_letters drive_letters' : Z) (fuel fuel' : nat) :
  (30 <= fuel)%nat -> (30 <= fuel')%nat ->
  (forall i, 2 <= i < 26 -> Z.testbit drive_letters i = Z.testbit drive_letters' i) ->
  GetNextAvailableDrivePath fuel drive_letters
    = GetNextAvailableDrivePath fuel' drive_letters'.
Proof.
  intros Hf Hf' Hsame. unfold GetNextAvailableDrivePath.
  destruct (scan_drive_letters_spec drive_letters 30 2 (byte_of_ascii "C") fuel)
    as (j & Hj & Hs & Hset & Hclr); try lia.
  destruct (scan_drive_letters_spec drive_letters' 30 2 (byte_of_ascii "C") fuel')
    as (j' & Hj' & Hs' & Hset' & Hclr'); try lia.
  change 4 with (mask_at 2). rewrite Hs, Hs'.
  change (byte_of_ascii "C") with 67. change (byte_of_ascii "Z") with 90.
  assert (Hcases : (j < 26 /\ j' = j) \/ (26 <= j /\ 26 <= j')).
  { destruct (Z_lt_le_dec j 26) as [Hlt | Hge].
    - left. split; [exact Hlt |].
      assert (Hb : Z.testbit drive_letters' j = false)
        by (rewrite <- Hsame by lia; apply Hclr; lia).
      assert (j' <= j).
      { destruct (Z_lt_le_dec j j') as [Hjj |]; [| assumption].
        rewrite Hset' in Hb by lia. discriminate. }
      destruct (Z_lt_le_dec j' j) as [Hjj |]; [| lia].
      assert (Hb' : Z.testbit drive_letters j' = false)
        by (rewrite Hsame by lia; apply Hclr'; lia).
      rewrite Hset in Hb' by lia. discriminate.
    - right. split; [exact Hge |].
      destruct (Z_lt_le_dec j' 26) as [Hlt |]; [| assumption].
      assert (Hb' : Z.testbit drive_letters j' = false)
        by (rewrite Hsame by lia; apply Hclr'; lia).
      rewrite Hset in Hb' by lia. discriminate. }
  destruct Hcases as [[Hlt ->] | [Hge Hge']].
  - reflexivity.
  - destruct (Z.gtb_spec (67 + (j - 2)) 90); [| lia].
    destruct (Z.gtb_spec (67 + (j' - 2)) 90); [reflexivity | lia].
Qed.

Lemma GetNextAvailableDrivePath_depends_on_C_to_Z_witness :
  GetNextAvailableDrivePath 30 0x1C = GetNextAvailableDrivePath 40 0xFC00001F.
Proof.
  apply (GetNextAvailableDrivePath_depends_on_C_to_Z 0x1C 0xFC00001F 30 40); try lia.
  intros i Hi.
  assert (H : i = 2 \/ i = 3 \/ i = 4 \/ i = 5 \/ i = 6 \/ i = 7 \/ i = 8 \/ i = 9 \/
              i = 10 \/ i = 11 \/ i = 12 \/ i = 13 \/ i = 14 \/ i = 15 \/ i = 16 \/
              i = 17 \/ i = 18 \/ i = 19 \/ i = 20 \/ i = 21 \/ i = 22 \/ i = 23 \/
              i = 24 \/ i = 25) by lia.
  repeat (destruct H as [-> | H]; [reflexivity |]). subst i. reflexivity.
Defined.

(** ** When the child is killed *)

Lemma bp_wait_for_exit_later (fuel : nat) :
  forall w w' r,
    bp_wait_for_exit fuel w = Some (r, w') ->
    exists n, (n <= fuel)%nat /\ w' = later_locked n w.
Proof.
  induction fuel as [|fuel IH]; intros w w' r; rewrite bp_wait_for_exit_unfold;
    destruct (child w) as [[args todo []] |]; intros H;
    try discriminate; try (inversion H; subst; exists 0%nat; split; [lia | reflexivity]).
  destruct (IH _ _ _ H) as (n & Hn & ->).
  exists (S n). rewrite later_locked_S. split; [lia | reflexivity].
Qed.

(** X18. The child is killed only after the full ten seconds.  Whenever
    StopDriveProcess returns on an object with a process handle and a mapped
    region, either the mounted flag was true at every one of the ten seconds
    after the unmount request and bp::terminate was called on the world
    exactly ten seconds later, or the flag was first seen false at some
    second [m <= 10] and from there on the world only moved by the child's
    own steps, taken while the launcher holds the mutex of the region: no
    kill takes place once the child has signalled unmounted in time. *)
Theorem child_killed_only_after_timeout
    (fuel : nat) (l l' : Launcher) (w w' : World)
    (h : bp_child) (a : nat) (ms : MountStatus) :
  drive_process_ l = Some h ->
  mount_status_ l = Some a ->
  memory w !! a = Some ms ->
  StopDriveProcess fuel (l, w) = Some (Ret tt, (l', w')) ->
  let w0 := unmount_requested a w in
  ((forall k, (k <= 10)%nat -> mounted_at a (later k w0) = true) /\
   w' = terminated (later 10 w0)) \/
  (exists m n,
      (m <= 10)%nat /\ (n <= fuel)%nat /\
      mounted_at a (later m w0) = false /\
      (forall k, (k < m)%nat -> mounted_at a (later k w0) = true) /\
      w' = later_locked n (later m w0)).
Proof.
  intros Hh Ha Hm H w0.
  rewrite (StopDriveProcess_live fuel l w h a ms Hh Ha Hm) in H. fold w0 in H.
  destruct (timed_wait_spec (fun w1 => negb (mounted_at a w1)) kTimeoutSeconds w0)
    as (m & Hle & Ht & Hbefore & Hlast).
  rewrite Ht in H.
  destruct (mounted_at a (later m w0)) eqn:Hflag; simpl in H.
  - left. specialize (Hlast eq_refl). unfold kTimeoutSeconds in Hlast.
    injection H as _ Hw'. subst w'. split.
    + intros k Hk. destruct (Nat.eq_dec k m) as [-> | Hne]; [exact Hflag |].
      specialize (Hbefore k ltac:(lia)).
      now apply negb_false_iff in Hbefore.
    + now rewrite Hlast.
  - right. destruct (bp_wait_for_exit fuel (later m w0)) as [[r w3] |] eqn:Hw;
      [| discriminate].
    injection H as _ Hw'. subst w'.
    destruct (bp_wait_for_exit_later _ _ _ _ Hw) as (n & Hn & ->).
    exists m, n. repeat split; try assumption.
    intros k Hk. specialize (Hbefore k Hk). now apply negb_false_iff in Hbefore.
Qed.

Lemma child_killed_only_after_timeout_witness :
  let w0 := unmount_requested 0 (Cases.with_region true false) in
  ((forall k, (k <= 10)%nat -> mounted_at 0 (later k w0) = true) /\
   terminated (later 10 w0) = terminated (later 10 w0)) \/
  (exists m n,
      (m <= 10)%nat /\ (n <= 0)%nat /\
      mounted_at 0 (later m w0) = false /\
      (forall k, (k < m)%nat -> mounted_at 0 (later k w0) = true) /\
      terminated (later 10 w0) = later_locked n (later m w0)).
Proof.
  assert (H : StopDriveProcess 0 (Cases.holder (Some ChildHandle),
                                  Cases.with_region true false)
              = Some (Ret tt,
                      (Cases.holder None,
                       terminated (later 10 (unmount_requested 0
                                               (Cases.with_region true false))))))
    by (vm_compute; reflexivity).
  exact (child_killed_only_after_timeout 0 (Cases.holder (Some ChildHandle))
           (Cases.holder None) (Cases.with_region true false)
           (terminated (later 10 (unmount_requested 0 (Cases.with_region true false))))
           ChildHandle 0%nat (mkMountStatus true false) eq_refl eq_refl eq_refl H).
Defined.

(** ** The mutex held across the wait for the exit *)

Lemma child_step_blocked (w : World) (args : list string) (act : ChildAction)
    (rest : list ChildAction) (a : nat) :
  child w = Some (mkProcess args (act :: rest) Running) ->
  needs_mutex act = true ->
  names w !! GetMountStatusSharedMemoryName (command_line_name args) = Some (Region a) ->
  child_step false w = w.
Proof.
  intros Hc Hact Hn. unfold child_step. rewrite Hc.
  unfold child_mount_status_name. rewrite child_shared_memory_name_args. cbn [proc_args].
  destruct act; try discriminate.
  - assert (H : DoNotifyMountStatus_signal false
                  (GetMountStatusSharedMemoryName (command_line_name args)) true w = None)
      by (apply DoNotifyMountStatus_signal_blocks; eauto).
    now rewrite H.
  - unfold bind, bi_open_only, wait_unmount. now rewrite Hn.
  - assert (H : NotifyUnmounted false
                  (GetMountStatusSharedMemoryName (command_line_name args)) w = None)
      by (apply DoNotifyMountStatus_blocks; eauto).
    now rewrite H.
Qed.

Lemma blocked_child_runs_forever (w : World) (args : list string) (act : ChildAction)
    (rest : list ChildAction) (a : nat) :
  child w = Some (mkProcess args (act :: rest) Running) ->
  needs_mutex act = true ->
  names w !! GetMountStatusSharedMemoryName (command_line_name args) = Some (Region a) ->
  forall n, child_running (later_locked n w) = true.
Proof.
  intros Hc Hact Hn n.
  assert (Hsame : later_locked n w = w).
  { induction n as [|n IH]; [reflexivity |].
    rewrite later_locked_S, (child_step_blocked w args act rest a Hc Hact Hn). exact IH. }
  rewrite Hsame. unfold child_running. now rewrite Hc.
Qed.

(** X19. The unwinding after a mount timeout.  When the child has been
    spawned and the mounted flag is not seen within the ten seconds, the
    constructor raises the unmount flag and, the mounted flag being clear,
    waits for the child's exit with no bound and with the mutex of the
    region held.  If the child, running without the mutex, ends, the
    constructor throws failed_to_mount with the world as the child left it
    and no child running; if it never ends, the constructor never returns;
    and it never ends when its next step is one that takes the mutex on its
    registered region, as for a child that is about to signal mounted just
    after the deadline. *)
Theorem mount_timeout_unwinding
    (G : string -> fs_path) (win32 : bool) (options : Options) (random_name : string)
    (w w1 w2 : World) (l1 : Launcher) (a : nat) :
  construct_until_spawned G options (initial_Launcher win32 options random_name, w)
    = Some (Ret tt, (l1, w1)) ->
  mount_status_ l1 = Some a ->
  timed_wait kTimeoutSeconds (mounted_at a) w1 = (false, w2) ->
  let w3 := unmount_requested a w2 in
  (forall n fuel,
      child_running (later_locked n w3) = false -> (n <= fuel)%nat ->
      exists m,
        (m <= n)%nat /\
        Launcher_ctor G win32 fuel options random_name w
          = Some (Throw DriveErrors_failed_to_mount, later_locked m w3) /\
        child_running (later_locked m w3) = false) /\
  ((forall n, child_running (later_locked n w3) = true) ->
   forall fuel, Launcher_ctor G win32 fuel options random_name w = None) /\
  (forall args act rest a',
      child w2 = Some (mkProcess args (act :: rest) Running) ->
      needs_mutex act = true ->
      names w2 !! GetMountStatusSharedMemoryName (command_line_name args)
        = Some (Region a') ->
      forall fuel, Launcher_ctor G win32 fuel options random_name w = None).
Proof.
  intros Hpre Ha Ht w3.
  assert (Hblocks : (forall n, child_running (later_locked n w3) = true) ->
                    forall fuel, Launcher_ctor G win32 fuel options random_name w = None).
  { intros Hrun fuel.
    destruct (Launcher_ctor_mount_timeout G win32 fuel options random_name w w1 w2 l1 a
                Hpre Ha Ht) as [_ Hctor].
    fold w3 in Hctor. now rewrite (bp_wait_for_exit_blocks fuel w3 Hrun) in Hctor. }
  split; [| split; [exact Hblocks |]].
  - intros n fuel Hend Hfuel.
    destruct (Launcher_ctor_mount_timeout G win32 fuel options random_name w w1 w2 l1 a
                Hpre Ha Ht) as [_ Hctor].
    fold w3 in Hctor.
    destruct (bp_wait_for_exit_returns n w3 fuel Hend Hfuel) as (c & m & Hm & Hw & Hr).
    rewrite Hw in Hctor. eauto.
  - intros args act rest a' Hc Hact Hn. apply Hblocks.
    apply (blocked_child_runs_forever w3 args act rest a'); assumption.
Qed.

Lemma mount_timeout_unwinding_witness :
  Launcher_ctor Scenario.exe_dir false 1000 Scenario.options Scenario.name
    (Scenario.machine Scenario.late) = None.
Proof.
  refine (proj2 (proj2 (mount_timeout_unwinding Scenario.exe_dir false Scenario.options
                          Scenario.name (Scenario.machine Scenario.late)
                          (snd (Scenario.spawned Scenario.late))
                          (Scenario.mount_wait_over Scenario.late)
                          (fst (Scenario.spawned Scenario.late)) 0%nat _ _ _))
            ["/opt/maidsafe/local_drive"; "--shared_memory " +:+ Scenario.name]
            SignalMounted [WaitUnmountRequest; CallNotifyUnmounted; ExitProcess 0]
            0%nat _ _ _ 1000%nat).
  - vm_compute. reflexivity.
  - vm_compute. reflexivity.
  - vm_compute. reflexivity.
  - vm_compute. reflexivity.
  - reflexivity.
  - vm_compute. reflexivity.
Defined.

(** X20. StopDriveProcess holds the mutex while it waits for the exit.
    When the unmounted signal was seen within the ten seconds and the next
    step of the child is one that takes the mutex of its registered region
    (a second NotifyUnmounted, say), the child cannot take that step, the
    wait for its exit never ends and StopDriveProcess never returns,
    whatever the fuel. *)
Theorem stop_deadlocks_when_child_needs_mutex
    (fuel : nat) (l : Launcher) (w w2 : World) (h : bp_child) (a : nat) (ms : MountStatus)
    (args : list string) (act : ChildAction) (rest : list ChildAction) (a' : nat) :
  drive_process_ l = Some h ->
  mount_status_ l = Some a ->
  memory w !! a = Some ms ->
  timed_wait kTimeoutSeconds (fun w => negb (mounted_at a w)) (unmount_requested a w)
    = (true, w2) ->
  child w2 = Some (mkProcess args (act :: rest) Running) ->
  needs_mutex act = true ->
  names w2 !! GetMountStatusSharedMemoryName (command_line_name args) = Some (Region a') ->
  child_step false w2 = w2 /\
  bp_wait_for_exit fuel w2 = None /\
  StopDriveProcess fuel (l, w) = None.
Proof.
  intros Hh Ha Hm Ht Hc Hact Hn.
  pose proof (bp_wait_for_exit_blocks fuel w2
                (blocked_child_runs_forever w2 args act rest a' Hc Hact Hn)) as Hw.
  split; [exact (child_step_blocked w2 args act rest a' Hc Hact Hn) |].
  split; [exact Hw |].
  now rewrite (StopDriveProcess_live fuel l w h a ms Hh Ha Hm), Ht, Hw.
Qed.

Lemma stop_deadlocks_when_child_needs_mutex_witness :
  let s := Scenario.constructed Scenario.repeating in
  let w2 := snd (timed_wait kTimeoutSeconds (fun w => negb (mounted_at 0 w))
                   (unmount_requested 0 (snd s))) in
  child_step false w2 = w2 /\
  bp_wait_for_exit 100 w2 = None /\
  StopDriveProcess 100 (fst s, snd s) = None.
Proof.
  intros s w2.
  apply (stop_deadlocks_when_child_needs_mutex 100 (fst s) (snd s) w2 ChildHandle 0%nat
           (mkMountStatus true false)
           ["/opt/maidsafe/local_drive"; "--shared_memory " +:+ Scenario.name]
           CallNotifyUnmounted [ExitProcess 0] 0%nat).
  - vm_compute. reflexivity.
  - vm_compute. reflexivity.
  - vm_compute. reflexivity.
  - vm_compute. reflexivity.
  - vm_compute. reflexivity.
  - reflexivity.
  - vm_compute. reflexivity.
Defined.
